(** * cubfile.c: reading CUBIT container files

    A shallow embedding of the Cub file reader ([src/cubfile.c]) and the
    properties of its header check, table-of-contents reader, block
    extraction and listing.

    Modelling conventions.
    - C integers are [Z]; conversions that narrow or change signedness are
      written out ([to_int]).  [long] and [unsigned long] hold every 32-bit
      file word unchanged (LP64).
    - Memory buffers ([char buffer[4]], [uint32_t data[6]],
      [unsigned char buffer[1024]]) are lists of bytes; a [uint32_t] array is
      read in the byte order of the host ([word_at]).
    - The C library state is explicit ([world]): the input stream (a
      seekable regular file held in memory, with its cursor), the output
      stream and [errno].  [fread] delivers the bytes that are left and, at
      end of file, leaves [errno] as it was; [fwrite] follows a script of
      partial and failing writes.
    - [malloc] fails for a negative element count and is taken to
      succeed for the other counts.
    - The text [cub_file_list] and [print_error] send to [stream] is the
      value the computation returns; the output stream of [world] is the
      one the extraction calls write to.  The standard error stream is
      not held: what [perror] writes to it and does to [errno] is not
      modelled.
    - A C function is a computation [C A]; besides finishing ([Done]) it
      may hit undefined behaviour ([Undefined]: an access outside an array,
      a read of an unassigned object).  Loops run on fuel; [OutOfFuel] is
      shown unreachable for the fuel the callers supply. *)

From Stdlib Require Import ZArith Lia Strings.Byte Ascii String DecimalString.
From stdpp Require Import base list.

Local Open Scope Z_scope.

(** ** Constants *)

(** Constants from CUBIT source (cubfile.c, lines 21-22). *)
Definition BIGENDIAN : Z := 0xFFFFFFFF.
Definition LITENDIAN : Z := 0x00000000.

(** Modelled from the spec: cubfile.h (enum CubFileError) is not among the
    sources.  Section 9 describes the error codes as small negative
    integers indexing the fixed string table of [print_error]
    (OKAY, INVALID FILE, CORRUPT FILE, OVERFLOW, NOT FOUND), section 7
    names them. *)
Definition CUB_FILE_INVALID : Z := -1.
Definition CUB_FILE_CORRUPT : Z := -2.
Definition CUB_FILE_OVERFLOW : Z := -3.
Definition CUB_FILE_NOT_FOUND : Z := -4.

(** Modelled from the spec: cubfile.h (enum CubFileType) is not among the
    sources.  Section 3 lists the kinds as the values 0-6, assembly being
    the last one; the file stores a kind as a 32-bit word, and the enum is
    taken to be represented as an unsigned 32-bit integer (no enumerator
    is negative; the listing prints it with [%u]). *)
Definition CUB_FILE_ASSEMBLY : Z := 6.

(** Modelled from the spec: cubfile.h (struct CubFileBlock) is not among
    the sources.  Section 3: kind, payload offset, payload length. *)
Record CubFileBlock := mkBlock { b_type : Z; b_offset : Z; b_length : Z }.

(** errno values the modelled C library sets. *)
Definition EIO : Z := 5.
Definition ENOMEM : Z := 12.
Definition EINVAL : Z := 22.

(** ** Bytes and words *)

Inductive byte_order := BigEndian | LittleEndian.

#[global] Instance byte_eq_decision : EqDecision byte := Byte.byte_eq_dec.

Definition byte_to_Z (b : byte) : Z := Z.of_N (Byte.to_N b).
Definition byte_of_Z (z : Z) : byte :=
  default x00 (Byte.of_N (Z.to_N (z `mod` 256))).

Fixpoint le_value (bs : list byte) : Z :=
  match bs with
  | [] => 0
  | b :: bs' => byte_to_Z b + 256 * le_value bs'
  end.

(** The value of an unsigned integer object whose bytes are [bs], on a
    host of the given byte order. *)
Definition word_value (host : byte_order) (bs : list byte) : Z :=
  match host with
  | LittleEndian => le_value bs
  | BigEndian => le_value (reverse bs)
  end.

(** The object representation of the 32-bit value [v] on the host. *)
Definition store32 (host : byte_order) (v : Z) : list byte :=
  let le := [byte_of_Z v; byte_of_Z (v / 256);
             byte_of_Z (v / 65536); byte_of_Z (v / 16777216)] in
  match host with LittleEndian => le | BigEndian => reverse le end.

(** [data[k]] for [uint32_t data[]] laid out in [data]. *)
Definition word_at (host : byte_order) (data : list byte) (k : nat) : option Z :=
  let bs := take 4 (drop (4 * k) data) in
  if decide (length bs = 4%nat) then Some (word_value host bs) else None.

(** Conversion of a [uint32_t] to [int] (wraps modulo 2^32). *)
Definition to_int (v : Z) : Z := (v + 2147483648) `mod` 4294967296 - 2147483648.

(** Conversion of an [unsigned long] to [long] (64 bits, wraps modulo
    2^64): what [fseek] receives for an offset held in an
    [unsigned long]. *)
Definition to_long (v : Z) : Z :=
  (v + 9223372036854775808) `mod` 18446744073709551616 - 9223372036854775808.

(** ** The C library state *)

Record FILE := mkFILE { f_bytes : list byte; f_pos : Z }.

(** An output stream: what has been written, and how many bytes each of
    the coming [fwrite] calls takes (0: the call fails).  Once the script
    is used up every call takes all it is given. *)
Record OFILE := mkOFILE { o_bytes : list byte; o_accept : list nat }.

Record world := mkWorld { cubfile : FILE; outfile : OFILE; errno : Z }.

Inductive outcome (A : Type) :=
  | Done (a : A) (w : world)
  | Undefined
  | OutOfFuel.
Arguments Done {A} a w.
Arguments Undefined {A}.
Arguments OutOfFuel {A}.

Definition C (A : Type) : Type := world -> outcome A.

#[global] Instance C_ret : MRet C := fun A a w => Done a w.
#[global] Instance C_bind : MBind C := fun A B f m w =>
  match m w with
  | Done a w' => f a w'
  | Undefined => Undefined
  | OutOfFuel => OutOfFuel
  end.

Definition undefined {A} : C A := fun _ => Undefined.
Definition out_of_fuel {A} : C A := fun _ => OutOfFuel.

(** Use of a value that exists only when the access is defined. *)
Definition load {A} (o : option A) : C A :=
  match o with Some a => mret a | None => undefined end.

Definition get_errno : C Z := fun w => Done (errno w) w.

(** [fseek(file, offset, SEEK_SET)] on the input. *)
Definition fseek (offset : Z) : C Z := fun w =>
  if offset <? 0 then Done (-1) (mkWorld (cubfile w) (outfile w) EINVAL)
  else Done 0 (mkWorld (mkFILE (f_bytes (cubfile w)) offset) (outfile w) (errno w)).

(** [fread(buf, size, nmemb, file)] on the input: the bytes stored into
    [buf] and the number of complete items. *)
Definition fread (size nmemb : Z) : C (list byte * Z) := fun w =>
  let f := cubfile w in
  let got := take (Z.to_nat (size * nmemb)) (drop (Z.to_nat (f_pos f)) (f_bytes f)) in
  Done (got, Z.of_nat (length got) `div` size)
       (mkWorld (mkFILE (f_bytes f) (f_pos f + Z.of_nat (length got)))
                (outfile w) (errno w)).

(** [fwrite(ptr, 1, count, outfile)].  The stream takes [count] bytes
    when its script is used up, none on an entry 0 (the write fails and
    sets errno; EIO stands for the code the system gives), and at most
    [a] bytes on an entry [a]. *)
Definition fwrite (ptr : list byte) (count : Z) : C Z := fun w =>
  let o := outfile w in
  match o_accept o with
  | [] =>
      Done count (mkWorld (cubfile w)
                    (mkOFILE (o_bytes o ++ take (Z.to_nat count) ptr) []) (errno w))
  | O :: rest =>
      Done 0 (mkWorld (cubfile w) (mkOFILE (o_bytes o) rest) EIO)
  | a :: rest =>
      let ww := Z.min (Z.of_nat a) count in
      Done ww (mkWorld (cubfile w)
                 (mkOFILE (o_bytes o ++ take (Z.to_nat ww) ptr) rest) (errno w))
  end.

(** [memcmp(a, b, n)]; [None] when [n] reaches past one of the objects. *)
Fixpoint memcmp (a b : list byte) (n : nat) {struct n} : option Z :=
  match n with
  | O => Some 0
  | S n' =>
      match a, b with
      | x :: a', y :: b' =>
          if byte_to_Z x =? byte_to_Z y then memcmp a' b' n'
          else Some (byte_to_Z x - byte_to_Z y)
      | _, _ => None
      end
  end.

(** ** cubfile.c *)

(** return cubit constant for endianness of this machine *)
Definition get_endian (host : byte_order) : option Z :=
  ptr ← store32 host 1 !! 0%nat;
  [BIGENDIAN; LITENDIAN] !! N.to_nat (Byte.to_N ptr).

(** The inner [while (end > start)] of [swap_bytes]. *)
Fixpoint swap_inner (fuel : nat) (bytes : list byte) (start end_ : nat)
  : C (list byte) :=
  match fuel with
  | O => out_of_fuel
  | S fuel' =>
      if bool_decide (start < end_)%nat then
        tmp ← load (bytes !! start);
        e ← load (bytes !! end_);
        swap_inner fuel' (<[end_ := tmp]> (<[start := e]> bytes))
                   (S start) (pred end_)
      else mret bytes
  end.

(** The outer [while (curptr < endptr)] of [swap_bytes]. *)
Fixpoint swap_outer (fuel : nat) (bytes : list byte) (curptr endptr width : nat)
  : C (list byte) :=
  match fuel with
  | O => out_of_fuel
  | S fuel' =>
      if bool_decide (curptr < endptr)%nat then
        let start := curptr in
        let curptr := (curptr + width)%nat in
        let end_ := pred curptr in
        bytes ← swap_inner (S width) bytes start end_;
        swap_outer fuel' bytes curptr endptr width
      else mret bytes
  end.

(** do byte swapping *)
Definition swap_bytes (bytes : list byte) (count width : nat) : C (list byte) :=
  swap_outer (S count) bytes 0 (count * width) width.

Definition magic : list byte := ["C"; "U"; "B"; "E"]%byte.

Definition return_errno {A} : C (Z * option A) :=
  e ← get_errno; mret (e, None).

(** read initial file data.  The result is the returned [int] and, when
    they were assigned, [*swap], [*count] and [*offset]. *)
Definition check_file_internal (host : byte_order) : C (Z * option (bool * Z * Z)) :=
  rc ← fseek 0;
  if negb (rc =? 0) then return_errno else
  '(buffer, n) ← fread 4 1;
  if n =? 0 then return_errno else
  c ← load (memcmp buffer magic 4);
  if negb (c =? 0) then mret (CUB_FILE_INVALID, None) else
  '(data, n) ← fread 4 6;
  if negb (n =? 6) then return_errno else
  d0 ← load (word_at host data 0);
  if negb (d0 =? BIGENDIAN) && negb (d0 =? LITENDIAN)
  then mret (CUB_FILE_CORRUPT, None) else
  native ← load (get_endian host);
  let swap := negb (d0 =? native) in
  data ← (if swap then swap_bytes data 6 4 else mret data);
  d2 ← load (word_at host data 2);
  d3 ← load (word_at host data 3);
  mret (0, Some (swap, to_int d2, d3)).

(** read initial file data.  [*swap] and [*count] are copied from the
    locals when the internal check returned 0; the locals are unassigned
    when it returned 0 through [return errno].  [None] in the result: the
    caller's objects hold no value this call defines - they are left
    alone when the result is not 0, and receive the unassigned locals
    when it is 0. *)
Definition cub_file_check (host : byte_order) : C (Z * option (bool * Z)) :=
  '(result, outs) ← check_file_internal host;
  if negb (result =? 0) then mret (result, None) else
  mret (0, (λ '(swap, count, _), (swap, count)) <$> outs).

(** [blocks[i] = v] (the three field assignments of the TOC loop). *)
Definition store_block (blocks : list (option CubFileBlock)) (i : Z)
    (v : CubFileBlock) : C (list (option CubFileBlock)) :=
  if (0 <=? i) && (i <? Z.of_nat (length blocks))
  then mret (<[Z.to_nat i := Some v]> blocks)
  else undefined.

(** [data[i]], read as a whole; the element has to lie inside the array
    and to have been assigned. *)
Definition block_at (data : list (option CubFileBlock)) (i : Z) : C CubFileBlock :=
  if i <? 0 then undefined else
  cell ← load (data !! Z.to_nat i);
  load cell.

(** The [for (i = 0; i < count; ++i)] of [cub_file_contents]. *)
Fixpoint contents_loop (fuel : nat) (host : byte_order) (swap : bool)
    (count i : Z) (blocks : list (option CubFileBlock))
  : C (Z * list (option CubFileBlock)) :=
  match fuel with
  | O => out_of_fuel
  | S fuel' =>
      if i <? count then
        '(data, n) ← fread 4 6;
        if negb (n =? 6) then e ← get_errno; mret (e, blocks) else
        data ← (if swap then swap_bytes data 6 4 else mret data);
        d0 ← load (word_at host data 0);
        d1 ← load (word_at host data 1);
        d2 ← load (word_at host data 2);
        blocks ← store_block blocks i (mkBlock d0 d1 d2);
        contents_loop fuel' host swap count (i + 1) blocks
      else mret (0, blocks)
  end.

(** read table of contents.  [blocks] is the caller's array as it is in
    memory; the result is the returned [int] and the array afterwards.
    [offset] is a 32-bit header word, which the [long] of [fseek] holds
    unchanged. *)
Definition cub_file_contents (host : byte_order)
    (blocks : list (option CubFileBlock)) (blocks_length : Z)
  : C (Z * list (option CubFileBlock)) :=
  '(result, outs) ← check_file_internal host;
  if negb (result =? 0) then mret (result, blocks) else
  '(swap, count, offset) ← load outs;
  if blocks_length <? count then mret (CUB_FILE_OVERFLOW, blocks) else
  rc ← fseek offset;
  if negb (rc =? 0) then e ← get_errno; mret (e, blocks) else
  contents_loop (S (Z.to_nat count)) host swap count 0 blocks.

(** The inner [while (count)] of [internal_copy_data]; [Some e] when the
    function returns [e] from inside the loop. *)
Fixpoint write_loop (fuel : nat) (buffer : list byte) (ptr count : Z)
  : C (option Z) :=
  match fuel with
  | O => out_of_fuel
  | S fuel' =>
      if negb (count =? 0) then
        ww ← fwrite (drop (Z.to_nat ptr) buffer) count;
        if ww =? 0 then e ← get_errno; mret (Some e) else
        write_loop fuel' buffer (ptr + ww) (count - ww)
      else mret None
  end.

(** The outer [while (length)] of [internal_copy_data]. *)
Fixpoint copy_loop (fuel : nat) (length : Z) : C Z :=
  match fuel with
  | O => out_of_fuel
  | S fuel' =>
      if negb (length =? 0) then
        let count := if length <? 1024 then length else 1024 in
        '(buffer, count) ← fread 1 count;
        if count =? 0 then get_errno else
        let length := length - count in
        r ← write_loop (S (Z.to_nat count)) buffer 0 count;
        match r with
        | Some e => mret e
        | None => copy_loop fuel' length
        end
      else mret 0
  end.

(** [offset] and [length] are [unsigned long]; [fseek] takes a [long]. *)
Definition internal_copy_data (offset length : Z) : C Z :=
  rc ← fseek (to_long offset);
  if negb (rc =? 0) then get_errno else
  copy_loop (S (Z.to_nat length)) length.

(** The array a [malloc] of [count] elements yields: [count] unassigned
    elements. *)
Definition malloc_blocks (count : Z) : list (option CubFileBlock) :=
  replicate (Z.to_nat count) None.

(** [malloc(count * sizeof(struct CubFileBlock))] for the [int count] of
    the callers.  A negative [count] becomes, as a [size_t], a size
    beyond every object: the call fails, sets errno and returns a null
    pointer, an array without elements.  For the other counts the
    allocation is taken to succeed. *)
Definition malloc (count : Z) : C (list (option CubFileBlock)) := fun w =>
  if count <? 0 then Done [] (mkWorld (cubfile w) (outfile w) ENOMEM)
  else Done (malloc_blocks count) w.

Definition cub_file_block (host : byte_order) (block : Z) : C Z :=
  '(result, outs) ← cub_file_check host;
  if negb (result =? 0) then mret result else
  '(_, count) ← load outs;
  if count =? 0 then mret CUB_FILE_CORRUPT else
  data ← malloc count;
  '(result, data) ← cub_file_contents host data count;
  if negb (result =? 0) then mret result else
  if block >=? count then mret CUB_FILE_NOT_FOUND else
  b ← block_at data block;
  if b_length b =? 0 then mret CUB_FILE_NOT_FOUND else
  internal_copy_data (b_offset b) (b_length b).

(** [for (i = 0; i < count && data[i].type != type; ++i);] - the value of
    [i] after the loop. *)
Fixpoint type_loop (fuel : nat) (data : list (option CubFileBlock))
    (count type i : Z) : C Z :=
  match fuel with
  | O => out_of_fuel
  | S fuel' =>
      if i <? count then
        b ← block_at data i;
        if negb (b_type b =? type) then type_loop fuel' data count type (i + 1)
        else mret i
      else mret i
  end.

Definition cub_file_type (host : byte_order) (type : Z) : C Z :=
  '(result, outs) ← cub_file_check host;
  if negb (result =? 0) then mret result else
  '(_, count) ← load outs;
  if count =? 0 then mret CUB_FILE_CORRUPT else
  data ← malloc count;
  '(result, data) ← cub_file_contents host data count;
  if negb (result =? 0) then mret result else
  i ← type_loop (S (Z.to_nat count)) data count type 0;
  if i =? count then mret CUB_FILE_NOT_FOUND else
  b ← block_at data i;
  if b_length b =? 0 then mret CUB_FILE_NOT_FOUND else
  internal_copy_data (b_offset b) (b_length b).

(** ** Listing *)

Definition newline : string := String "010"%char EmptyString.

Fixpoint spaces (n : nat) : string :=
  match n with
  | O => EmptyString
  | S n' => String " "%char (spaces n')
  end.

(** A conversion with a minimum field width, right-justified. *)
Definition field (width : nat) (s : string) : string :=
  (spaces (width - String.length s) ++ s)%string.

(** [%d], [%u] and [%lu] of a value in the range of its type. *)
Definition decimal (n : Z) : string := NilZero.string_of_int (Z.to_int n).

(** The text [print_error] sends to [stream].  For a positive code
    [perror] reports on the standard error stream, which the model does
    not hold, and nothing goes to [stream]; what [perror] does to errno
    is left open by the C library and is not modelled, so the errno of
    the world after that path carries no information.  [err = -err]
    overflows for the least [int]. *)
Definition print_error (err : Z) : C string :=
  let errors := ["OKAY"; "INVALID FILE"; "CORRUPT FILE"; "OVERFLOW";
                 "NOT FOUND"]%string in
  if err >? 0 then mret EmptyString else
  if err =? -2147483648 then undefined else
  let err := - err in
  if err >=? Z.of_nat (length errors) then mret ("UNKNOWN ERROR" ++ newline)%string
  else
    e ← load (errors !! Z.to_nat err);
    mret (e ++ newline)%string.

Definition typenames : list string :=
  ["?"; "ACIS"; "MESH"; "FACET"; "FREE MESH"; "GRANITE"; "ASSEMBLY"]%string.

(** [typenames[k]]; an index outside the table is undefined. *)
Definition typename_at (k : Z) : C string :=
  if k <? 0 then undefined else load (typenames !! Z.to_nat k).

(** The type-name argument of the row:
    [data[i].type <= CUB_FILE_ASSEMBLY ? typenames[data[i].type] : typenames[0]]. *)
Definition row_typename (b : CubFileBlock) : C string :=
  if b_type b <=? CUB_FILE_ASSEMBLY then typename_at (b_type b)
  else typename_at 0.

(** ["%3d  %9s  %4u  %10lu  %10lu\n"] *)
Definition format_row (i : Z) (name : string) (b : CubFileBlock) : string :=
  (field 3 (decimal i) ++ "  " ++ field 9 name ++ "  " ++
   field 4 (decimal (b_type b)) ++ "  " ++
   field 10 (decimal (b_offset b)) ++ "  " ++
   field 10 (decimal (b_length b)) ++ newline)%string.

(** The [for (i = 0; i < count; ++i)] of [cub_file_list]; [out] is what
    [stream] has received so far. *)
Fixpoint list_loop (fuel : nat) (data : list (option CubFileBlock))
    (count i : Z) (out : string) : C string :=
  match fuel with
  | O => out_of_fuel
  | S fuel' =>
      if i <? count then
        b ← block_at data i;
        name ← row_typename b;
        list_loop fuel' data count (i + 1) (out ++ format_row i name b)%string
      else mret out
  end.

Definition list_heading : string :=
  ("Idx  Type Name  Type      Offset      Length" ++ newline ++
   "---  ---------  ----  ----------  ----------" ++ newline)%string.

(** write contents of file: the text sent to [stream]. *)
Definition cub_file_list (host : byte_order) : C string :=
  '(result, outs) ← cub_file_check host;
  if negb (result =? 0) then print_error result else
  '(_, count) ← load outs;
  if count =? 0 then mret ("Table of contents is empty" ++ newline)%string else
  data ← malloc count;
  '(result, data) ← cub_file_contents host data count;
  if negb (result =? 0) then print_error result else
  list_loop (S (Z.to_nat count)) data count 0 list_heading.

(** ** The container format

    The definitions of this section follow the specification, not the
    code (the library only reads Cub files).  Section 6 lays the
    container out: the literal "CUBE", six header words (endian tag,
    reserved, block count, TOC offset, two reserved words), and at the
    TOC offset one 24-byte record per block (kind, offset, length, three
    reserved words), every word in the byte order the tag records. *)

(** The tag of a byte order: 0xFFFFFFFF (big) or 0x00000000 (little). *)
Definition endian_tag (order : byte_order) : Z :=
  match order with BigEndian => BIGENDIAN | LittleEndian => LITENDIAN end.

(** Words, each written in the given byte order. *)
Definition encode_words (order : byte_order) (ws : list Z) : list byte :=
  ws ≫= store32 order.

(** A TOC record; [rsv] fills the reserved words. *)
Definition encode_record (order : byte_order) (rsv : Z) (b : CubFileBlock)
  : list byte :=
  encode_words order [b_type b; b_offset b; b_length b; rsv; rsv; rsv].

(** The magic and the six header words. *)
Definition encode_header (order : byte_order) (rsv count toc_offset : Z)
  : list byte :=
  magic ++ encode_words order [endian_tag order; rsv; count; toc_offset; rsv; rsv].

(** A whole file: header, [gap] (the bytes between header and TOC), the
    TOC, and whatever follows it. *)
Definition encode_file (order : byte_order) (rsv : Z) (gap : list byte)
    (blocks : list CubFileBlock) (rest : list byte) : list byte :=
  encode_header order rsv (Z.of_nat (length blocks))
                (28 + Z.of_nat (length gap))
  ++ gap ++ (blocks ≫= encode_record order rsv) ++ rest.

(** The fields of a descriptor are 32-bit words. *)
Definition block_in_range (b : CubFileBlock) : Prop :=
  0 <= b_type b < 4294967296 /\ 0 <= b_offset b < 4294967296 /\
  0 <= b_length b < 4294967296.

(** ** Notions used in the statements *)

(** The world with the input cursor at [p]. *)
Definition at_pos (w : world) (p : Z) : world :=
  mkWorld (mkFILE (f_bytes (cubfile w)) p) (outfile w) (errno w).

(** What a caller observes of a call: the value returned and the bytes
    the output stream holds. *)
Definition observe {A} (o : outcome A) : option (A * list byte) :=
  match o with
  | Done a w => Some (a, o_bytes (outfile w))
  | _ => None
  end.

(** The value a call returned, when it returned. *)
Definition returned {A} (o : outcome A) : option A :=
  match o with Done a _ => Some a | _ => None end.

(** A computation that only moves the input cursor. *)
Definition reads_only {A} (m : C A) : Prop :=
  forall w a w', m w = Done a w' -> exists p, w' = at_pos w p.

(** The descriptor a lookup by type reaches: the first one of that kind. *)
Definition first_of_type (type : Z) (blocks : list CubFileBlock)
  : option (nat * CubFileBlock) :=
  list_find (λ b, b_type b = type) blocks.


(** ** The table of the listing

    What [stream] is to hold after a listing, said without the model of
    [cub_file_list]: the two heading lines, then one line per descriptor
    with the index, the name of the kind, the kind, the offset and the
    length, each at the right of its column.  The columns are as wide as
    the rules of the heading (3, 9, 4, 10 and 10 characters) and two
    spaces apart; a text wider than its column is not cut. *)

Definition line_end : string := String "010"%char EmptyString.

(** The name of a kind: the six kinds CUBIT knows, and the placeholder
    for every other value. *)
Definition kind_name (kind : Z) : string :=
  if kind =? 1 then "ACIS"%string
  else if kind =? 2 then "MESH"%string
  else if kind =? 3 then "FACET"%string
  else if kind =? 4 then "FREE MESH"%string
  else if kind =? 5 then "GRANITE"%string
  else if kind =? 6 then "ASSEMBLY"%string
  else "?"%string.

(** A number in decimal digits. *)
Definition numeral (n : Z) : string := NilZero.string_of_int (Z.to_int n).

Fixpoint pad_left (n : nat) (s : string) : string :=
  match n with
  | O => s
  | S n' => String " "%char (pad_left n' s)
  end.

(** [s] at the right of a column of [width] characters. *)
Definition right_justify (width : nat) (s : string) : string :=
  pad_left (width - String.length s) s.

Definition table_heading : string :=
  ("Idx  Type Name  Type      Offset      Length" ++ line_end ++
   "---  ---------  ----  ----------  ----------" ++ line_end)%string.

(** The line of the descriptor [b] at index [i]. *)
Definition table_row (i : Z) (b : CubFileBlock) : string :=
  (right_justify 3 (numeral i) ++ "  " ++
   right_justify 9 (kind_name (b_type b)) ++ "  " ++
   right_justify 4 (numeral (b_type b)) ++ "  " ++
   right_justify 10 (numeral (b_offset b)) ++ "  " ++
   right_justify 10 (numeral (b_length b)) ++ line_end)%string.

(** The lines of the descriptors [blocks], the first one at index [i]. *)
Fixpoint table_rows (i : Z) (blocks : list CubFileBlock) : string :=
  match blocks with
  | [] => EmptyString
  | b :: blocks' => (table_row i b ++ table_rows (i + 1) blocks')%string
  end.

(** Every coming write takes at least one byte: no [fwrite] fails. *)
Definition writes_progress (o : OFILE) : Prop :=
  Forall (λ a : nat, a ≠ 0%nat) (o_accept o).

(** Each 4-byte word reversed, the effect of [swap_bytes data n 4]. *)
Fixpoint swap_words (data : list byte) : list byte :=
  match data with
  | a :: b :: c :: d :: rest => d :: c :: b :: a :: swap_words rest
  | _ => data
  end.

(** The bytes an [fread] of [nmemb] items of [size] bytes delivers. *)
Definition fread_bytes (size nmemb : Z) (w : world) : list byte :=
  take (Z.to_nat (size * nmemb))
       (drop (Z.to_nat (f_pos (cubfile w))) (f_bytes (cubfile w))).

(** [check_file_internal] as a function of the file contents. *)
Definition header_outcome (host : byte_order) (w : world)
  : outcome (Z * option (bool * Z * Z)) :=
  let bytes := f_bytes (cubfile w) in
  if decide (length bytes < 4)%nat then
    Done (errno w, None) (at_pos w (Z.of_nat (length bytes)))
  else if decide (take 4 bytes = magic) then
    let data := take 24 (drop 4 bytes) in
    if decide (length data = 24%nat) then
      let d0 := word_value host (take 4 data) in
      if decide (d0 = BIGENDIAN \/ d0 = LITENDIAN) then
        let swap := negb (d0 =? endian_tag host) in
        let data' := if swap then swap_words data else data in
        Done (0, Some (swap,
                       to_int (word_value host (take 4 (drop 8 data'))),
                       word_value host (take 4 (drop 12 data'))))
             (at_pos w 28)
      else Done (CUB_FILE_CORRUPT, None) (at_pos w 28)
    else Done (errno w, None) (at_pos w (4 + Z.of_nat (length data)))
  else Done (CUB_FILE_INVALID, None) (at_pos w 4).

Create Rewrite HintDb world.

(** ** Sample files *)

(** A little-endian file with two blocks: a mesh block of ten bytes at
    offset 76 and an absent block. *)
Definition sample_payload : list byte :=
  ["c"; "u"; "b"; "i"; "t"; " "; "m"; "e"; "s"; "h"]%byte.

Definition sample_bytes : list byte :=
  encode_file LittleEndian 0 [] [mkBlock 2 76 10; mkBlock 0 86 0] sample_payload.

Definition world_of (bytes : list byte) : world :=
  mkWorld (mkFILE bytes 0) (mkOFILE [] []) 0.

Definition sample_world : world := world_of sample_bytes.

(** Not a Cub file. *)
Definition not_cube_world : world :=
  world_of (["C"; "U"; "B"; "X"]%byte ++ drop 4 sample_bytes).

(** A Cub file whose endian tag is 0x01020304 on disk. *)
Definition bad_tag_world : world :=
  world_of (magic ++ [x01; x02; x03; x04] ++ drop 8 sample_bytes).


(** A big-endian file without blocks. *)
Definition empty_toc_world : world :=
  world_of (encode_file BigEndian 0 [] [] []).

(** The sample file cut off four bytes into the payload of block 0. *)
Definition truncated_world : world := world_of (take 80 sample_bytes).



(** A big-endian file listing a block of kind 99 and one of kind
    0xFFFFFFFF, with the cursor at 5, and an output stream that takes
    three bytes on each of its first two writes. *)
Definition odd_kinds_world : world :=
  mkWorld (mkFILE (encode_file BigEndian 0 [x00; x00]
                     [mkBlock 99 78 10; mkBlock 4294967295 88 0] sample_payload) 5)
          (mkOFILE [] (replicate 2 3%nat)) 0.

(** A big-endian file with one block of 2500 bytes at offset 52, and an
    output stream that takes 1000 bytes, then 24, then 1, then all it is
    given. *)
Definition long_payload : list byte := replicate 2500 "A"%byte.

Definition long_world : world :=
  mkWorld (mkFILE (encode_file BigEndian 0 [] [mkBlock 1 52 2500] long_payload) 0)
          (mkOFILE [] [1000; 24; 1]%nat) 0.

(** * Properties *)

(** ** Bytes *)

Lemma byte_to_Z_range b : 0 <= byte_to_Z b < 256.
Proof.
  unfold byte_to_Z. pose proof (Byte.to_N_bounded b). lia.
Qed.

Lemma byte_to_Z_inj b1 b2 : byte_to_Z b1 = byte_to_Z b2 -> b1 = b2.
Proof.
  unfold byte_to_Z. intros H. apply N2Z.inj in H.
  pose proof (Byte.of_to_N b1) as H1. rewrite H in H1.
  rewrite Byte.of_to_N in H1. congruence.
Qed.

Lemma byte_to_of_Z z : byte_to_Z (byte_of_Z z) = z `mod` 256.
Proof.
  unfold byte_to_Z, byte_of_Z.
  pose proof (Z.mod_pos_bound z 256 ltac:(lia)) as Hr.
  pose proof (Byte.to_of_N_option_map (Z.to_N (z `mod` 256))) as H.
  destruct (Byte.of_N (Z.to_N (z `mod` 256))) as [b|] eqn:E; simpl in *.
  - destruct (N.leb_spec (Z.to_N (z `mod` 256)) 255); [|discriminate].
    injection H as ->. lia.
  - destruct (N.leb_spec (Z.to_N (z `mod` 256)) 255); [discriminate|]. lia.
Qed.

Lemma memcmp_zero a b n :
  memcmp a b n = Some 0 -> take n a = take n b.
Proof.
  revert a b. induction n as [|n IH]; intros a b; [done|].
  destruct a as [|x a], b as [|y b]; simpl; try done.
  destruct (Z.eqb_spec (byte_to_Z x) (byte_to_Z y)) as [E|E].
  - intros H. apply byte_to_Z_inj in E. subst. f_equal. by apply IH.
  - intros [=]. lia.
Qed.

Lemma memcmp_refl a n : (n <= length a)%nat -> memcmp a a n = Some 0.
Proof.
  revert a. induction n as [|n IH]; intros a; simpl; [done|].
  destruct a as [|x a]; simpl; [lia|]. intros H.
  rewrite Z.eqb_refl. apply IH. lia.
Qed.

Lemma memcmp_defined a b n :
  (n <= length a)%nat -> (n <= length b)%nat -> is_Some (memcmp a b n).
Proof.
  revert a b. induction n as [|n IH]; intros a b; simpl; [eauto|].
  destruct a as [|x a], b as [|y b]; simpl; try lia. intros Ha Hb.
  destruct (byte_to_Z x =? byte_to_Z y); [apply IH; lia | eauto].
Qed.

(** ** Stepping through a computation *)

Lemma at_pos_at_pos w p q : at_pos (at_pos w p) q = at_pos w q.
Proof. reflexivity. Qed.
Lemma f_bytes_at_pos w p : f_bytes (cubfile (at_pos w p)) = f_bytes (cubfile w).
Proof. reflexivity. Qed.
Lemma f_pos_at_pos w p : f_pos (cubfile (at_pos w p)) = p.
Proof. reflexivity. Qed.
Lemma outfile_at_pos w p : outfile (at_pos w p) = outfile w.
Proof. reflexivity. Qed.
Lemma errno_at_pos w p : errno (at_pos w p) = errno w.
Proof. reflexivity. Qed.

#[global] Hint Rewrite f_bytes_at_pos f_pos_at_pos outfile_at_pos errno_at_pos
  at_pos_at_pos : world.

Section Steps.
Context {A B : Type} (k : A -> C B) (w : world).

Lemma bind_Done (m : C A) a w' : m w = Done a w' -> (m ≫= k) w = k a w'.
Proof. unfold mbind, C_bind. by intros ->. Qed.

Lemma ret_bind (a : A) : (mret a ≫= k) w = k a w.
Proof. reflexivity. Qed.

Lemma load_bind (o : option A) :
  (load o ≫= k) w = match o with Some a => k a w | None => Undefined end.
Proof. by destruct o. Qed.

Lemma return_errno_run : @return_errno A w = Done (errno w, None) w.
Proof. reflexivity. Qed.
End Steps.

Lemma fseek_bind {B} off (k : Z -> C B) w :
  0 <= off -> (fseek off ≫= k) w = k 0 (at_pos w off).
Proof.
  intros H. unfold mbind, C_bind, fseek.
  destruct (Z.ltb_spec off 0); [lia | reflexivity].
Qed.

Lemma fread_bind {B} size nmemb (k : list byte * Z -> C B) w :
  (fread size nmemb ≫= k) w =
  k (fread_bytes size nmemb w,
     Z.of_nat (length (fread_bytes size nmemb w)) `div` size)
    (at_pos w (f_pos (cubfile w) + Z.of_nat (length (fread_bytes size nmemb w)))).
Proof. reflexivity. Qed.

(** ** Byte swapping of a six-word buffer *)

Lemma swap_bytes_24 (data : list byte) w :
  length data = 24%nat -> swap_bytes data 6 4 w = Done (swap_words data) w.
Proof.
  intros H.
  do 24 (destruct data as [|? data]; [discriminate H|]).
  destruct data; [reflexivity | discriminate H].
Qed.

Lemma swap_words_length data : length (swap_words data) = length data.
Proof.
  induction data as [data IH] using (induction_ltof1 _ (@length byte)).
  unfold ltof in IH.
  destruct data as [|a [|b [|c [|d rest]]]]; simpl; try done.
  rewrite IH; simpl; lia.
Qed.

Lemma get_endian_tag host : get_endian host = Some (endian_tag host).
Proof. destruct host; reflexivity. Qed.

Lemma word_at_24 host data k :
  length data = 24%nat -> (k < 6)%nat ->
  word_at host data k = Some (word_value host (take 4 (drop (4 * k) data))).
Proof.
  intros H Hk. unfold word_at.
  rewrite decide_True; [done|].
  rewrite length_take, length_drop. lia.
Qed.

(** ** The header check as a function of the file *)

Lemma check_file_internal_eq host w :
  check_file_internal host w = header_outcome host w.
Proof.
  unfold check_file_internal, header_outcome.
  rewrite fseek_bind by lia. change (negb (0 =? 0)) with false. cbv iota.
  rewrite fread_bind. unfold fread_bytes. autorewrite with world.
  change (Z.to_nat (4 * 1)) with 4%nat. change (Z.to_nat 0) with 0%nat.
  rewrite drop_0, Z.add_0_l.
  set (bytes := f_bytes (cubfile w)).
  pose proof (length_take bytes 4) as Hlen.
  destruct (decide (length bytes < 4)%nat) as [Hshort|Hlong].
  { replace (Z.of_nat (length (take 4 bytes)) `div` 4) with 0
      by (symmetry; apply Z.div_small; lia).
    simpl. rewrite return_errno_run. autorewrite with world.
    do 2 f_equal. lia. }
  replace (length (take 4 bytes)) with 4%nat by lia.
  change (Z.of_nat 4) with 4. change (4 `div` 4 =? 0) with false. cbv iota.
  rewrite load_bind.
  destruct (memcmp_defined (take 4 bytes) magic 4) as [c Hc]; [lia | simpl; lia |].
  rewrite Hc.
  destruct (decide (take 4 bytes = magic)) as [Hm|Hm].
  2:{ destruct (Z.eqb_spec c 0) as [->|Hne]; [|reflexivity].
      apply memcmp_zero in Hc. rewrite take_take in Hc. simpl in Hc. done. }
  rewrite Hm in Hc. rewrite memcmp_refl in Hc by (simpl; lia).
  injection Hc as <-. change (negb (0 =? 0)) with false. cbv iota.
  rewrite fread_bind. unfold fread_bytes. autorewrite with world.
  change (Z.to_nat (4 * 6)) with 24%nat. change (Z.to_nat 4) with 4%nat.
  fold bytes.
  set (data := take 24 (drop 4 bytes)).
  pose proof (length_take (drop 4 bytes) 24) as Hd. fold data in Hd.
  destruct (decide (length data = 24%nat)) as [H24|H24].
  2:{ replace (Z.of_nat (length data) `div` 4 =? 6) with false.
      - change (negb false) with true. cbv iota.
        rewrite return_errno_run. by autorewrite with world.
      - symmetry. apply Z.eqb_neq. intros Hq.
        assert (Z.of_nat (length data) < 24) by lia.
        pose proof (Z.div_lt_upper_bound (Z.of_nat (length data)) 4 6). lia. }
  rewrite H24. change (negb (Z.of_nat 24 `div` 4 =? 6)) with false. cbv iota.
  rewrite load_bind, word_at_24 by (done || lia).
  change (4 * 0)%nat with 0%nat. rewrite drop_0.
  set (d0 := word_value host (take 4 data)).
  destruct (decide (d0 = BIGENDIAN \/ d0 = LITENDIAN)) as [Htag|Htag].
  2:{ destruct (Z.eqb_spec d0 BIGENDIAN); [tauto|].
      destruct (Z.eqb_spec d0 LITENDIAN); [tauto|]. reflexivity. }
  replace (negb (d0 =? BIGENDIAN) && negb (d0 =? LITENDIAN)) with false
    by (destruct Htag as [-> | ->]; reflexivity).
  cbv iota. rewrite load_bind, get_endian_tag.
  destruct (negb (d0 =? endian_tag host)).
  - erewrite bind_Done by (by apply swap_bytes_24).
    rewrite !load_bind, !word_at_24 by (rewrite ?swap_words_length; done || lia).
    reflexivity.
  - rewrite ret_bind, !load_bind, !word_at_24 by (done || lia). reflexivity.
Qed.

(** ** The header check *)

(** After a call that returned 0: take the [if (result) return result;]
    that follows it. *)
Ltac call_returned_0 :=
  cbv beta iota; change (negb (0 =? 0)) with false; cbv beta iota.
Ltac call_returned_0_in H :=
  cbv beta iota in H; change (negb (0 =? 0)) with false in H;
  cbv beta iota in H.

Lemma cub_file_check_eq host w :
  cub_file_check host w =
  match header_outcome host w with
  | Done (result, outs) w' =>
      if negb (result =? 0) then Done (result, None) w'
      else Done (0, (λ '(swap, count, _), (swap, count)) <$> outs) w'
  | Undefined => Undefined
  | OutOfFuel => OutOfFuel
  end.
Proof.
  unfold cub_file_check, mbind, C_bind at 1.
  rewrite check_file_internal_eq.
  destruct (header_outcome host w) as [[result outs] w'| |]; try done.
  by destruct (negb (result =? 0)).
Qed.

Lemma cub_file_check_ok host w swap count w1 :
  cub_file_check host w = Done (0, Some (swap, count)) w1 ->
  exists offset,
    check_file_internal host w = Done (0, Some (swap, count, offset)) w1.
Proof.
  rewrite cub_file_check_eq, check_file_internal_eq.
  destruct (header_outcome host w) as [[result outs] w'| |]; try done.
  destruct (Z.eqb_spec result 0) as [->|Hne]; simpl.
  - destruct outs as [[[s c] o]|]; simpl; intros [= -> -> ->]; eauto.
  - intros [=].
Qed.

(** C7.  An input of at least four bytes (so that the 4-byte read
    succeeds) whose first four bytes are not "CUBE" makes [cub_file_check]
    return CUB_FILE_INVALID, whatever the host, the rest of the file, the
    cursor, the output stream and errno are. *)
Theorem cub_file_check_bad_magic host w :
  (4 <= length (f_bytes (cubfile w)))%nat ->
  take 4 (f_bytes (cubfile w)) ≠ magic ->
  cub_file_check host w = Done (CUB_FILE_INVALID, None) (at_pos w 4).
Proof.
  intros Hlen Hmagic. rewrite cub_file_check_eq. unfold header_outcome.
  rewrite decide_False by lia. by rewrite decide_False.
Qed.

Lemma cub_file_check_bad_magic_witness :
  (4 <= length (f_bytes (cubfile not_cube_world)))%nat /\
  take 4 (f_bytes (cubfile not_cube_world)) ≠ magic /\
  cub_file_check BigEndian not_cube_world
  = Done (CUB_FILE_INVALID, None) (at_pos not_cube_world 4).
Proof.
  assert (H1 : (4 <= length (f_bytes (cubfile not_cube_world)))%nat)
    by (vm_compute; lia).
  assert (H2 : take 4 (f_bytes (cubfile not_cube_world)) ≠ magic)
    by (vm_compute; discriminate).
  exact (conj H1 (conj H2 (cub_file_check_bad_magic BigEndian _ H1 H2))).
Defined.




(** ** Capacity of the destination *)

(** C6.  When the header validates with block count [N] and the capacity
    passed to [cub_file_contents] is smaller than [N], the call returns
    CUB_FILE_OVERFLOW right after the header check: the destination array
    is returned as it was given, whatever its size and contents. *)
Theorem cub_file_contents_overflow host w swap N w1 blocks capacity :
  cub_file_check host w = Done (0, Some (swap, N)) w1 ->
  capacity < N ->
  cub_file_contents host blocks capacity w = Done (CUB_FILE_OVERFLOW, blocks) w1.
Proof.
  intros Hcheck Hcap. apply cub_file_check_ok in Hcheck as [offset Hcheck].
  unfold cub_file_contents. erewrite bind_Done by exact Hcheck.
  call_returned_0. rewrite load_bind. cbv beta iota.
  destruct (Z.ltb_spec capacity N); [reflexivity | lia].
Qed.

Lemma cub_file_contents_overflow_witness :
  cub_file_contents LittleEndian [Some (mkBlock 7 8 9)] 1 sample_world
  = Done (CUB_FILE_OVERFLOW, [Some (mkBlock 7 8 9)]) (at_pos sample_world 28).
Proof.
  apply (cub_file_contents_overflow LittleEndian sample_world false 2).
  - reflexivity.
  - lia.
Defined.

(** ** An empty table of contents *)

(** C10.  When the header validates with a block count of 0,
    [cub_file_block] and [cub_file_type] return CUB_FILE_CORRUPT for every
    index and every type, while [cub_file_list] reports an empty table of
    contents. *)
Theorem empty_toc_is_corrupt_but_listed host w swap w1 :
  cub_file_check host w = Done (0, Some (swap, 0)) w1 ->
  (forall block, cub_file_block host block w = Done CUB_FILE_CORRUPT w1) /\
  (forall type, cub_file_type host type w = Done CUB_FILE_CORRUPT w1) /\
  cub_file_list host w
  = Done ("Table of contents is empty" ++ newline)%string w1.
Proof.
  intros Hcheck. repeat split; intros;
    unfold cub_file_block, cub_file_type, cub_file_list;
    erewrite bind_Done by exact Hcheck; reflexivity.
Qed.

Lemma empty_toc_is_corrupt_but_listed_witness :
  (forall block,
     cub_file_block LittleEndian block empty_toc_world
     = Done CUB_FILE_CORRUPT (at_pos empty_toc_world 28)) /\
  (forall type,
     cub_file_type LittleEndian type empty_toc_world
     = Done CUB_FILE_CORRUPT (at_pos empty_toc_world 28)) /\
  cub_file_list LittleEndian empty_toc_world
  = Done ("Table of contents is empty" ++ newline)%string
         (at_pos empty_toc_world 28).
Proof.
  apply (empty_toc_is_corrupt_but_listed LittleEndian empty_toc_world true).
  reflexivity.
Defined.

(** ** Words are 32-bit values *)

Lemma le_value_range bs : 0 <= le_value bs < 256 ^ Z.of_nat (length bs).
Proof.
  induction bs as [|b bs IH]; simpl length; [simpl; lia|].
  rewrite Nat2Z.inj_succ, Z.pow_succ_r by lia.
  cbn [le_value]. pose proof (byte_to_Z_range b). lia.
Qed.

Lemma word_at_range host data k v :
  word_at host data k = Some v -> 0 <= v < 4294967296.
Proof.
  unfold word_at.
  destruct (decide (length (take 4 (drop (4 * k) data)) = 4%nat)) as [H|]; [|done].
  intros [= <-]. unfold word_value. destruct host.
  - pose proof (le_value_range (reverse (take 4 (drop (4 * k) data)))) as Hr.
    rewrite length_reverse, H in Hr. exact Hr.
  - pose proof (le_value_range (take 4 (drop (4 * k) data))) as Hr.
    rewrite H in Hr. exact Hr.
Qed.

Lemma word_value_nonneg host bs : 0 <= word_value host bs.
Proof.
  destruct host; simpl; apply le_value_range.
Qed.

(** ** Computations that only move the input cursor *)

Lemma world_eta w : at_pos w (f_pos (cubfile w)) = w.
Proof. by destruct w as [[bytes p] o e]. Qed.

Lemma bind_inv {A B} (m : C A) (k : A -> C B) w b w' :
  (m ≫= k) w = Done b w' ->
  exists a w1, m w = Done a w1 /\ k a w1 = Done b w'.
Proof.
  unfold mbind, C_bind. destruct (m w) as [a w1| |]; [eauto | done | done].
Qed.

Lemma reads_only_ret {A} (a : A) : reads_only (mret a).
Proof. intros w a' w' [= <- <-]. exists (f_pos (cubfile w)). by rewrite world_eta. Qed.

Lemma reads_only_undefined {A} : reads_only (@undefined A).
Proof. by intros w a w'. Qed.

Lemma reads_only_out_of_fuel {A} : reads_only (@out_of_fuel A).
Proof. by intros w a w'. Qed.

Lemma reads_only_load {A} (o : option A) : reads_only (load o).
Proof. destruct o; [apply reads_only_ret | apply reads_only_undefined]. Qed.

Lemma reads_only_get_errno : reads_only get_errno.
Proof. intros w a w' [= <- <-]. exists (f_pos (cubfile w)). by rewrite world_eta. Qed.

Lemma reads_only_fread size nmemb : reads_only (fread size nmemb).
Proof. intros w a w' [= <- <-]. by eexists. Qed.

Lemma reads_only_fseek off : 0 <= off -> reads_only (fseek off).
Proof.
  intros H w a w'. unfold fseek.
  destruct (Z.ltb_spec off 0); [lia|]. intros [= <- <-]. by eexists.
Qed.

Lemma reads_only_bind {A B} (m : C A) (k : A -> C B) :
  reads_only m -> (forall a, reads_only (k a)) -> reads_only (m ≫= k).
Proof.
  intros Hm Hk w b w' H. apply bind_inv in H as (a & w1 & H1 & H2).
  apply Hm in H1 as [p ->]. apply Hk in H2 as [q ->]. by exists q.
Qed.

Create HintDb reads_only.
#[global] Hint Resolve reads_only_ret reads_only_undefined reads_only_out_of_fuel
  reads_only_load reads_only_get_errno reads_only_fread : reads_only.

(** Goes through a computation built from binds, conditionals and
    destructuring lets. *)
Ltac reads_only_tac :=
  repeat first
    [ progress eauto with reads_only
    | apply reads_only_bind; [|intros]
    | match goal with
      | |- reads_only (if ?c then _ else _) => destruct c
      | |- reads_only (match ?x with _ => _ end) => destruct x
      end ].

Lemma reads_only_swap_inner fuel bytes start end_ :
  reads_only (swap_inner fuel bytes start end_).
Proof.
  revert bytes start end_.
  induction fuel as [|fuel IH]; intros; simpl; reads_only_tac.
Qed.

Lemma reads_only_swap_outer fuel bytes curptr endptr width :
  reads_only (swap_outer fuel bytes curptr endptr width).
Proof.
  revert bytes curptr.
  induction fuel as [|fuel IH]; intros; cbn [swap_outer]; reads_only_tac.
  apply reads_only_swap_inner.
Qed.

Lemma reads_only_swap_bytes bytes count width :
  reads_only (swap_bytes bytes count width).
Proof. apply reads_only_swap_outer. Qed.

Lemma reads_only_store_block blocks i v : reads_only (store_block blocks i v).
Proof. unfold store_block. reads_only_tac. Qed.

Lemma reads_only_block_at data i : reads_only (block_at data i).
Proof. unfold block_at. reads_only_tac. Qed.

#[global] Hint Resolve reads_only_swap_bytes reads_only_store_block
  reads_only_block_at : reads_only.

Lemma reads_only_contents_loop fuel host swap count i blocks :
  reads_only (contents_loop fuel host swap count i blocks).
Proof.
  revert i blocks.
  induction fuel as [|fuel IH]; intros; cbn [contents_loop]; reads_only_tac.
Qed.

Lemma reads_only_check_file_internal host : reads_only (check_file_internal host).
Proof.
  intros w a w'. rewrite check_file_internal_eq. unfold header_outcome.
  repeat case_decide; intros [= <- <-]; by eexists.
Qed.

Lemma reads_only_cub_file_check host : reads_only (cub_file_check host).
Proof.
  unfold cub_file_check. apply reads_only_bind.
  - apply reads_only_check_file_internal.
  - intros [result outs]. reads_only_tac.
Qed.

Lemma check_file_internal_offset host w result swap count offset w' :
  check_file_internal host w = Done (result, Some (swap, count, offset)) w' ->
  result = 0 /\ 0 <= offset < 4294967296 /\
  -2147483648 <= count < 2147483648.
Proof.
  rewrite check_file_internal_eq. unfold header_outcome.
  repeat case_decide; intros [= <- <- <- <- <-]; try done.
  split; [done|]. split.
  - match goal with |- _ <= word_value ?h (take 4 (drop 12 ?d)) < _ =>
      apply (word_at_range h d 3) end.
    rewrite word_at_24; [done | | lia].
    destruct (negb _); rewrite ?swap_words_length; done.
  - unfold to_int.
    match goal with |- _ <= ?x `mod` ?m - _ < _ =>
      pose proof (Z.mod_pos_bound x m) end. lia.
Qed.

Lemma reads_only_cub_file_contents host blocks blocks_length :
  reads_only (cub_file_contents host blocks blocks_length).
Proof.
  intros w a w' H. unfold cub_file_contents in H.
  apply bind_inv in H as ([result outs] & w1 & H1 & H2).
  pose proof (reads_only_check_file_internal _ _ _ _ H1) as [p ->].
  destruct (negb (result =? 0)).
  { apply reads_only_ret in H2 as [q ->]. by eexists. }
  destruct outs as [[[swap count] offset]|]; [|done].
  apply check_file_internal_offset in H1 as (_ & Hoff & _).
  rewrite load_bind in H2. cbv beta iota in H2.
  destruct (blocks_length <? count).
  { apply reads_only_ret in H2 as [q ->]. by eexists. }
  rewrite fseek_bind in H2 by lia. call_returned_0_in H2.
  apply reads_only_contents_loop in H2 as [q ->]. by eexists.
Qed.

(** ** What a successful TOC read leaves in the array *)

Lemma contents_loop_inv fuel host swap count i dest r dest' w w' :
  contents_loop fuel host swap count i dest w = Done (r, dest') w' ->
  length dest' = length dest /\
  forall j b, dest' !! j = Some (Some b) ->
              dest !! j = Some (Some b) \/ block_in_range b.
Proof.
  revert i dest w. induction fuel as [|fuel IH]; intros i dest w; [done|].
  cbn [contents_loop]. destruct (i <? count); [|intros [= <- <- <-]; eauto].
  rewrite fread_bind. cbv beta iota.
  destruct (negb _); [intros [= <- <- <-]; eauto|].
  intros H. apply bind_inv in H as (data & w1 & _ & H).
  rewrite load_bind in H.
  destruct (word_at host data 0) as [d0|] eqn:E0; [|done].
  rewrite load_bind in H.
  destruct (word_at host data 1) as [d1|] eqn:E1; [|done].
  rewrite load_bind in H.
  destruct (word_at host data 2) as [d2|] eqn:E2; [|done].
  apply bind_inv in H as (dest1 & w2 & Hst & H).
  unfold store_block in Hst. destruct (_ && _); [|done].
  injection Hst as <- <-. apply IH in H as [Hlen Hin].
  rewrite length_insert in Hlen. split; [done|].
  intros j b Hj. apply Hin in Hj as [Hj|]; [|by right].
  destruct (decide (j = Z.to_nat i)) as [->|Hne].
  - right. apply lookup_lt_Some in Hj as Hlt. rewrite length_insert in Hlt.
    rewrite list_lookup_insert_eq in Hj by done. injection Hj as <-.
    repeat split; simpl; eapply word_at_range; eauto.
  - left. by rewrite list_lookup_insert_ne in Hj.
Qed.

Lemma cub_file_contents_inv host count w data w' :
  cub_file_contents host (malloc_blocks count) count w = Done (0, data) w' ->
  length data = Z.to_nat count /\
  forall j b, data !! j = Some (Some b) -> block_in_range b.
Proof.
  intros H. unfold cub_file_contents in H.
  apply bind_inv in H as ([result outs] & w1 & H1 & H).
  destruct (negb (result =? 0)).
  { injection H as _ <- _. split.
    - unfold malloc_blocks. by rewrite length_replicate.
    - intros j b Hj. apply lookup_replicate in Hj as [? _]. done. }
  destruct outs as [[[swap count'] offset]|]; [|done].
  rewrite load_bind in H. cbv beta iota in H.
  destruct (count <? count'); [done|].
  apply bind_inv in H as (rc & w2 & _ & H).
  destruct (negb (rc =? 0)).
  { apply bind_inv in H as (e & w3 & _ & H). injection H as _ <- _. split.
    - unfold malloc_blocks. by rewrite length_replicate.
    - intros j b Hj. apply lookup_replicate in Hj as [? _]. done. }
  apply contents_loop_inv in H as [Hlen Hin]. split.
  - rewrite Hlen. unfold malloc_blocks. by rewrite length_replicate.
  - intros j b Hj. apply Hin in Hj as [Hj|]; [|done].
    apply lookup_replicate in Hj as [? _]. done.
Qed.

(** A file that parses: the header check gives [count], and the TOC read
    into a fresh array of [count] elements fills it with [blocks]. *)
Lemma parsed_blocks host count w blocks w' :
  cub_file_contents host (malloc_blocks count) count w
  = Done (0, Some <$> blocks) w' ->
  length blocks = Z.to_nat count /\ Forall block_in_range blocks.
Proof.
  intros H. apply cub_file_contents_inv in H as [Hlen Hin].
  rewrite length_fmap in Hlen. split; [done|].
  apply Forall_lookup. intros j b Hj. apply (Hin j).
  by rewrite list_lookup_fmap, Hj.
Qed.

Lemma block_at_fmap blocks i b w :
  0 <= i -> blocks !! Z.to_nat i = Some b ->
  block_at (Some <$> blocks) i w = Done b w.
Proof.
  intros Hi Hb. unfold block_at.
  destruct (Z.ltb_spec i 0); [lia|].
  by rewrite load_bind, list_lookup_fmap, Hb.
Qed.

(** ** The copy loops *)


Lemma write_loop_spec fuel buffer ptr count w :
  0 <= ptr -> 0 <= count -> (Z.to_nat count < fuel)%nat ->
  ptr + count <= Z.of_nat (length buffer) ->
  writes_progress (outfile w) ->
  exists o,
    write_loop fuel buffer ptr count w = Done None (mkWorld (cubfile w) o (errno w)) /\
    o_bytes o = o_bytes (outfile w)
                ++ take (Z.to_nat count) (drop (Z.to_nat ptr) buffer) /\
    writes_progress o.
Proof.
  unfold writes_progress.
  revert ptr count w. induction fuel as [|fuel IH]; intros ptr count w; [lia|].
  intros Hptr Hcount Hfuel Hbuf Hacc. cbn [write_loop].
  destruct (Z.eqb_spec count 0) as [->|Hne]; cbn [negb].
  { exists (outfile w). destruct w as [f o e]; simpl.
    by rewrite app_nil_r. }
  assert (Hstep : forall ww o1,
    1 <= ww <= count ->
    o_bytes o1 = o_bytes (outfile w)
                 ++ take (Z.to_nat ww) (drop (Z.to_nat ptr) buffer) ->
    writes_progress o1 ->
    exists o,
      write_loop fuel buffer (ptr + ww) (count - ww)
                 (mkWorld (cubfile w) o1 (errno w))
      = Done None (mkWorld (cubfile w) o (errno w)) /\
      o_bytes o = o_bytes (outfile w)
                  ++ take (Z.to_nat count) (drop (Z.to_nat ptr) buffer) /\
      writes_progress o).
  { intros ww o1 Hww Ho1 Hacc1.
    destruct (IH (ptr + ww) (count - ww) (mkWorld (cubfile w) o1 (errno w)))
      as (o & Hrun & Hbytes & Hacc'); try (simpl; lia); [done|].
    exists o. split; [exact Hrun|]. split; [|done].
    simpl in Hbytes. rewrite Hbytes, Ho1, <- app_assoc. f_equal.
    replace (Z.to_nat (ptr + ww)) with (Z.to_nat ptr + Z.to_nat ww)%nat by lia.
    rewrite <- drop_drop, take_take_drop. f_equal. lia. }
  unfold mbind, C_bind, fwrite.
  destruct (o_accept (outfile w)) as [|a rest] eqn:Ea.
  - rewrite (proj2 (Z.eqb_neq count 0)) by done.
    apply Hstep; [lia | done | simpl; constructor].
  - inversion Hacc as [|? ? Ha Hrest]; subst.
    destruct a as [|a]; [done|].
    assert (1 <= Z.of_nat (S a) `min` count <= count) by lia.
    rewrite (proj2 (Z.eqb_neq (Z.of_nat (S a) `min` count) 0)) by lia.
    apply Hstep; [lia | done | done].
Qed.


Lemma copy_loop_spec fuel length_ w :
  0 <= length_ -> 0 <= f_pos (cubfile w) -> (Z.to_nat length_ < fuel)%nat ->
  writes_progress (outfile w) ->
  exists p o,
    copy_loop fuel length_ w
    = Done (if decide (length_ <= Z.of_nat (length (drop (Z.to_nat (f_pos (cubfile w))) (f_bytes (cubfile w))))) then 0 else errno w)
           (mkWorld (mkFILE (f_bytes (cubfile w)) p) o (errno w)) /\
    o_bytes o = o_bytes (outfile w) ++ take (Z.to_nat length_) (drop (Z.to_nat (f_pos (cubfile w))) (f_bytes (cubfile w))) /\
    writes_progress o.
Proof.
  revert length_ w. induction fuel as [|fuel IH]; intros len w; [lia|].
  intros Hlen Hpos Hfuel Hacc. cbn [copy_loop].
  destruct (Z.eqb_spec len 0) as [->|Hne]; cbn [negb].
  { exists (f_pos (cubfile w)), (outfile w).
    rewrite decide_True by lia. destruct w as [[bytes p] o e]; simpl.
    by rewrite app_nil_r. }
  rewrite fread_bind. cbv beta iota zeta.
  set (count := if len <? 1024 then len else 1024).
  assert (Hcount : 1 <= count <= len /\ count <= 1024)
    by (subst count; destruct (Z.ltb_spec len 1024); lia).
  set (buffer := fread_bytes 1 count w).
  assert (Hbuffer : buffer = take (Z.to_nat count) (drop (Z.to_nat (f_pos (cubfile w))) (f_bytes (cubfile w))))
    by (subst buffer; unfold fread_bytes; by rewrite Z.mul_1_l).
  rewrite Z.div_1_r.
  pose proof (length_take (drop (Z.to_nat (f_pos (cubfile w))) (f_bytes (cubfile w))) (Z.to_nat count)) as Hlb.
  rewrite <- Hbuffer in Hlb.
  destruct (Z.eqb_spec (Z.of_nat (length buffer)) 0) as [Hz|Hnz].
  { assert (Hnil : drop (Z.to_nat (f_pos (cubfile w))) (f_bytes (cubfile w)) = []) by (apply length_zero_iff_nil; lia).
    rewrite Hz. eexists _, (outfile w). split.
    - unfold get_errno, at_pos. simpl. rewrite decide_False; [reflexivity|].
      rewrite Hnil. simpl. lia.
    - rewrite Hnil, take_nil, app_nil_r. done. }
  set (n := Z.of_nat (length buffer)) in *.
  destruct (write_loop_spec (S (Z.to_nat n)) buffer 0 n (at_pos w (f_pos (cubfile w) + n)))
    as (o1 & Hw & Ho1 & Hacc1); try (subst n; simpl; lia); [done|].
  erewrite bind_Done by exact Hw. cbv beta iota.
  destruct (IH (len - n) (mkWorld (cubfile (at_pos w (f_pos (cubfile w) + n))) o1
                        (errno (at_pos w (f_pos (cubfile w) + n)))))
    as (p & o & Hrun & Ho & Hacc'); try (simpl; subst n; lia); [done|].
  exists p, o. split; [|split; [|done]].
  - rewrite Hrun. simpl. f_equal.
    replace (Z.to_nat (f_pos (cubfile w) + n))
      with (Z.to_nat (f_pos (cubfile w)) + Z.to_nat n)%nat by (subst n; lia).
    rewrite <- drop_drop, length_drop.
    repeat case_decide; try done; subst n; lia.
  - simpl in Ho, Ho1. rewrite Ho, Ho1. rewrite <- app_assoc. f_equal.
    rewrite drop_0.
    rewrite take_ge by (subst n; lia).
    replace (Z.to_nat (f_pos (cubfile w) + n))
      with (Z.to_nat (f_pos (cubfile w)) + Z.to_nat n)%nat by (subst n; lia).
    rewrite <- drop_drop, Hbuffer.
    replace (Z.to_nat n) with (length buffer) by (subst n; lia).
    rewrite Hlb.
    destruct (decide (Z.to_nat count <= length (drop (Z.to_nat (f_pos (cubfile w))) (f_bytes (cubfile w))))%nat).
    + rewrite Nat.min_l by done. rewrite take_take_drop. f_equal. subst n. lia.
    + rewrite Nat.min_r by lia. rewrite drop_all, take_nil, app_nil_r.
      rewrite !take_ge by lia. done.
Qed.

Lemma to_long_small v : 0 <= v < 9223372036854775808 -> to_long v = v.
Proof. intros Hv. unfold to_long. rewrite Z.mod_small; lia. Qed.

Lemma malloc_blocks_of count w :
  0 <= count -> malloc count w = Done (malloc_blocks count) w.
Proof.
  intros Hcount. unfold malloc.
  destruct (Z.ltb_spec count 0); [lia | reflexivity].
Qed.

Lemma malloc_negative count w :
  count < 0 -> malloc count w = Done [] (mkWorld (cubfile w) (outfile w) ENOMEM).
Proof.
  intros Hcount. unfold malloc.
  destruct (Z.ltb_spec count 0); [reflexivity | lia].
Qed.

Lemma internal_copy_data_spec offset length_ w :
  0 <= offset < 9223372036854775808 -> 0 <= length_ ->
  writes_progress (outfile w) ->
  exists p o,
    internal_copy_data offset length_ w
    = Done (if decide (length_ <= Z.of_nat (length (drop (Z.to_nat offset)
                                                     (f_bytes (cubfile w)))))
            then 0 else errno w)
           (mkWorld (mkFILE (f_bytes (cubfile w)) p) o (errno w)) /\
    o_bytes o = o_bytes (outfile w)
                ++ take (Z.to_nat length_)
                        (drop (Z.to_nat offset) (f_bytes (cubfile w))) /\
    writes_progress o.
Proof.
  intros Hoff Hlen Hacc. unfold internal_copy_data.
  rewrite to_long_small by done.
  rewrite fseek_bind by lia. call_returned_0.
  destruct (copy_loop_spec (S (Z.to_nat length_)) length_ (at_pos w offset))
    as (p & o & Hrun & Ho & Hacc'); try done; try (simpl; lia).
  exists p, o. done.
Qed.

(** ** Extraction from a file that parses *)

Lemma cub_file_block_parsed host w swap count w1 data w2 block :
  cub_file_check host w = Done (0, Some (swap, count)) w1 ->
  0 < count ->
  cub_file_contents host (malloc_blocks count) count w1 = Done (0, data) w2 ->
  cub_file_block host block w =
  (if block >=? count then mret CUB_FILE_NOT_FOUND else
   b ← block_at data block;
   if b_length b =? 0 then mret CUB_FILE_NOT_FOUND else
   internal_copy_data (b_offset b) (b_length b)) w2.
Proof.
  intros Hcheck Hcount Hcontents. unfold cub_file_block.
  erewrite bind_Done by exact Hcheck. call_returned_0.
  rewrite load_bind. cbv beta iota zeta.
  rewrite (proj2 (Z.eqb_neq count 0)) by lia. cbv iota.
  rewrite (bind_Done _ _ _ _ _ (malloc_blocks_of count w1 ltac:(lia))).
  erewrite bind_Done by exact Hcontents. call_returned_0. reflexivity.
Qed.

Lemma cub_file_type_parsed host w swap count w1 data w2 type :
  cub_file_check host w = Done (0, Some (swap, count)) w1 ->
  0 < count ->
  cub_file_contents host (malloc_blocks count) count w1 = Done (0, data) w2 ->
  cub_file_type host type w =
  (i ← type_loop (S (Z.to_nat count)) data count type 0;
   if i =? count then mret CUB_FILE_NOT_FOUND else
   b ← block_at data i;
   if b_length b =? 0 then mret CUB_FILE_NOT_FOUND else
   internal_copy_data (b_offset b) (b_length b)) w2.
Proof.
  intros Hcheck Hcount Hcontents. unfold cub_file_type.
  erewrite bind_Done by exact Hcheck. call_returned_0.
  rewrite load_bind. cbv beta iota zeta.
  rewrite (proj2 (Z.eqb_neq count 0)) by lia. cbv iota.
  rewrite (bind_Done _ _ _ _ _ (malloc_blocks_of count w1 ltac:(lia))).
  erewrite bind_Done by exact Hcontents. call_returned_0. reflexivity.
Qed.

Lemma cub_file_list_parsed host w swap count w1 data w2 :
  cub_file_check host w = Done (0, Some (swap, count)) w1 ->
  0 < count ->
  cub_file_contents host (malloc_blocks count) count w1 = Done (0, data) w2 ->
  cub_file_list host w = list_loop (S (Z.to_nat count)) data count 0 list_heading w2.
Proof.
  intros Hcheck Hcount Hcontents. unfold cub_file_list.
  erewrite bind_Done by exact Hcheck. call_returned_0.
  rewrite load_bind. cbv beta iota zeta.
  rewrite (proj2 (Z.eqb_neq count 0)) by lia. cbv iota.
  rewrite (bind_Done _ _ _ _ _ (malloc_blocks_of count w1 ltac:(lia))).
  erewrite bind_Done by exact Hcontents. call_returned_0. reflexivity.
Qed.

(** The world after header check and TOC read differs from the one
    before in the cursor only. *)
Lemma parsed_world host w swap count w1 dest cap r data w2 :
  cub_file_check host w = Done (0, Some (swap, count)) w1 ->
  cub_file_contents host dest cap w1 = Done (r, data) w2 ->
  exists p, w2 = at_pos w p.
Proof.
  intros H1 H2. apply reads_only_cub_file_check in H1 as [p1 ->].
  apply reads_only_cub_file_contents in H2 as [p2 ->]. by eexists.
Qed.

(** C2.  When the file parses and the descriptor at [block] has offset O
    and length L, the payload lies inside the file (no read comes up
    short) and every write takes at least one byte (none fails, however
    the stream splits them), [cub_file_block] appends to the output
    exactly the L bytes of the file from O on; it returns 0, except that
    for L = 0 it writes nothing and returns CUB_FILE_NOT_FOUND. *)
Theorem cub_file_block_exact_copy host w swap count w1 blocks w2 block b :
  cub_file_check host w = Done (0, Some (swap, count)) w1 ->
  cub_file_contents host (malloc_blocks count) count w1
  = Done (0, Some <$> blocks) w2 ->
  0 <= block -> blocks !! Z.to_nat block = Some b ->
  b_offset b + b_length b <= Z.of_nat (length (f_bytes (cubfile w))) ->
  writes_progress (outfile w) ->
  let payload := take (Z.to_nat (b_length b))
                      (drop (Z.to_nat (b_offset b)) (f_bytes (cubfile w))) in
  Z.of_nat (length payload) = b_length b /\
  exists w',
    cub_file_block host block w
    = Done (if b_length b =? 0 then CUB_FILE_NOT_FOUND else 0) w' /\
    o_bytes (outfile w') = o_bytes (outfile w) ++ payload.
Proof.
  intros Hcheck Hcontents Hblock Hb Hfit Hacc payload.
  destruct (parsed_blocks _ _ _ _ _ Hcontents) as [Hlen Hrange].
  pose proof (lookup_lt_Some _ _ _ Hb) as Hlt.
  rewrite Forall_lookup in Hrange.
  destruct (Hrange _ _ Hb) as (_ & Hoff & Hlength).
  assert (Hpay : Z.of_nat (length payload) = b_length b).
  { subst payload. rewrite length_take, length_drop. lia. }
  split; [exact Hpay|].
  destruct (parsed_world _ _ _ _ _ _ _ _ _ _ Hcheck Hcontents) as [p ->].
  erewrite cub_file_block_parsed by (done || lia).
  destruct (Z.geb_spec block count); [lia|].
  erewrite bind_Done by (by apply block_at_fmap).
  destruct (Z.eqb_spec (b_length b) 0) as [Hz|Hnz].
  { eexists. split; [reflexivity|]. simpl. subst payload.
    rewrite Hz. by rewrite take_0, app_nil_r. }
  destruct (internal_copy_data_spec (b_offset b) (b_length b) (at_pos w p))
    as (q & o & Hrun & Ho & _); [ | lia | done |].
  { lia. }
  eexists. split.
  - rewrite Hrun. rewrite decide_True; [reflexivity|].
    simpl. rewrite length_drop. lia.
  - simpl. exact Ho.
Qed.

Lemma cub_file_block_exact_copy_witness :
  exists w',
    cub_file_block BigEndian 0 odd_kinds_world = Done 0 w' /\
    o_bytes (outfile w') = sample_payload.
Proof.
  destruct (cub_file_block_exact_copy BigEndian odd_kinds_world false 2
              (at_pos odd_kinds_world 28)
              [mkBlock 99 78 10; mkBlock 4294967295 88 0]
              (at_pos odd_kinds_world 78) 0 (mkBlock 99 78 10))
    as [_ (w' & Hrun & Hout)].
  - reflexivity.
  - reflexivity.
  - lia.
  - reflexivity.
  - vm_compute. discriminate.
  - repeat constructor; discriminate.
  - exists w'. split; [exact Hrun | exact Hout].
Defined.

(** ** Lookup by index *)

(** Part of C4 that the code satisfies: an index at or above the block
    count, or the index of a descriptor of length 0, gives
    CUB_FILE_NOT_FOUND. *)
Lemma cub_file_block_not_found host w swap count w1 blocks w2 block :
  cub_file_check host w = Done (0, Some (swap, count)) w1 ->
  0 < count ->
  cub_file_contents host (malloc_blocks count) count w1
  = Done (0, Some <$> blocks) w2 ->
  count <= block \/
  (0 <= block /\ exists b, blocks !! Z.to_nat block = Some b /\ b_length b = 0) ->
  cub_file_block host block w = Done CUB_FILE_NOT_FOUND w2.
Proof.
  intros Hcheck Hcount Hcontents Hcase.
  erewrite cub_file_block_parsed by done.
  destruct (Z.geb_spec block count) as [|Hlt]; [done|].
  destruct Hcase as [|(Hblock & b & Hb & Hzero)]; [lia|].
  erewrite bind_Done by (by apply block_at_fmap).
  by rewrite Hzero.
Qed.

(** An index below 0 passes the test [block >= count] of a file with
    blocks, and [data[block]] is then read outside the array. *)
Lemma cub_file_block_below_zero host w swap count w1 data w2 block :
  cub_file_check host w = Done (0, Some (swap, count)) w1 ->
  0 < count ->
  cub_file_contents host (malloc_blocks count) count w1 = Done (0, data) w2 ->
  block < 0 ->
  cub_file_block host block w = Undefined.
Proof.
  intros Hcheck Hcount Hcontents Hneg.
  erewrite cub_file_block_parsed by (done || lia).
  destruct (Z.geb_spec block count); [lia|].
  unfold mbind, C_bind, block_at.
  by destruct (Z.ltb_spec block 0); [|lia].
Qed.

(** ** A negative block count *)

(** A header that validates does so whatever the cursor and errno are. *)
Lemma check_file_internal_bytes host w w' swap count offset w1 :
  check_file_internal host w = Done (0, Some (swap, count, offset)) w1 ->
  f_bytes (cubfile w') = f_bytes (cubfile w) ->
  check_file_internal host w'
  = Done (0, Some (swap, count, offset)) (at_pos w' 28).
Proof.
  rewrite !check_file_internal_eq. unfold header_outcome. intros Hrun ->.
  revert Hrun. repeat case_decide; intros Hrun; try discriminate Hrun.
  by injection Hrun as -> -> -> _.
Qed.

(** With a negative count the TOC loop does not run. *)
Lemma cub_file_contents_negative
    host w swap count offset w1 dest blocks_length w' :
  check_file_internal host w = Done (0, Some (swap, count, offset)) w1 ->
  count < 0 -> count <= blocks_length ->
  f_bytes (cubfile w') = f_bytes (cubfile w) ->
  cub_file_contents host dest blocks_length w'
  = Done (0, dest) (at_pos w' offset).
Proof.
  intros Hint Hneg Hcap Hbytes.
  pose proof (check_file_internal_offset _ _ _ _ _ _ _ Hint) as (_ & Hoff & _).
  unfold cub_file_contents.
  erewrite bind_Done by (eapply check_file_internal_bytes; eassumption).
  call_returned_0. rewrite load_bind. cbv beta iota.
  destruct (Z.ltb_spec blocks_length count); [lia|].
  rewrite fseek_bind by lia. call_returned_0.
  replace (Z.to_nat count) with 0%nat by lia. cbn [contents_loop].
  by destruct (Z.ltb_spec 0 count); [lia|].
Qed.

(** The lookups and the listing after a header check that gave a
    negative count: [malloc] fails, the TOC read succeeds without
    reading a record, and the array has no element. *)
Lemma calls_with_negative_count host w swap count w1 :
  cub_file_check host w = Done (0, Some (swap, count)) w1 -> count < 0 ->
  exists offset,
    check_file_internal host w = Done (0, Some (swap, count, offset)) w1 /\
    let w2 := mkWorld (mkFILE (f_bytes (cubfile w)) offset) (outfile w) ENOMEM in
    (forall block,
       cub_file_block host block w
       = if block >=? count then Done CUB_FILE_NOT_FOUND w2 else Undefined) /\
    (forall type, cub_file_type host type w = Undefined) /\
    cub_file_list host w = Done list_heading w2.
Proof.
  intros Hcheck Hneg.
  destruct (cub_file_check_ok _ _ _ _ _ Hcheck) as [offset Hint].
  exists offset. split; [exact Hint|]. intros w2.
  destruct (reads_only_cub_file_check _ _ _ _ Hcheck) as [p ->].
  assert (Hcontents :
    cub_file_contents host [] count
      (mkWorld (cubfile (at_pos w p)) (outfile (at_pos w p)) ENOMEM)
    = Done (0, []) w2).
  { by rewrite (cub_file_contents_negative host w swap count offset
                  (at_pos w p) [] count
                  (mkWorld (cubfile (at_pos w p)) (outfile (at_pos w p)) ENOMEM)
                  Hint Hneg ltac:(lia) eq_refl). }
  assert (Hnz : (count =? 0) = false) by (apply Z.eqb_neq; lia).
  split; [|split].
  - intros block. unfold cub_file_block.
    erewrite bind_Done by exact Hcheck. call_returned_0.
    rewrite load_bind. cbv beta iota zeta. rewrite Hnz.
    rewrite (bind_Done _ _ _ _ _ (malloc_negative count _ Hneg)).
    erewrite bind_Done by exact Hcontents. call_returned_0.
    destruct (Z.geb_spec block count); [reflexivity|].
    unfold mbind, C_bind, block_at.
    by destruct (Z.ltb_spec block 0); [|lia].
  - intros type. unfold cub_file_type.
    erewrite bind_Done by exact Hcheck. call_returned_0.
    rewrite load_bind. cbv beta iota zeta. rewrite Hnz.
    rewrite (bind_Done _ _ _ _ _ (malloc_negative count _ Hneg)).
    erewrite bind_Done by exact Hcontents. call_returned_0.
    replace (Z.to_nat count) with 0%nat by lia. cbn [type_loop].
    destruct (Z.ltb_spec 0 count); [lia|]. rewrite ret_bind.
    by destruct (Z.eqb_spec 0 count); [lia|].
  - unfold cub_file_list.
    erewrite bind_Done by exact Hcheck. call_returned_0.
    rewrite load_bind. cbv beta iota zeta. rewrite Hnz.
    rewrite (bind_Done _ _ _ _ _ (malloc_negative count _ Hneg)).
    erewrite bind_Done by exact Hcontents. call_returned_0.
    replace (Z.to_nat count) with 0%nat by lia. cbn [list_loop].
    by destruct (Z.ltb_spec 0 count); [lia|].
Qed.

(** C4 (code defect).  On the sample file, which has two blocks,
    [cub_file_block] with index -1 does not return CUB_FILE_NOT_FOUND: it
    reads [data[-1].length], an element outside the array. *)
Theorem cub_file_block_index_minus_one :
  cub_file_block LittleEndian (-1) sample_world = Undefined.
Proof. reflexivity. Qed.

(** ** A payload that ends early *)

(** When fewer than [length_] bytes are left at [offset], the copy loop
    writes those that are there and returns [errno] as it was on entry:
    the read that hits the end of the file does not set it. *)
Lemma internal_copy_data_truncated offset length_ w :
  0 <= offset < 9223372036854775808 -> 0 < length_ ->
  writes_progress (outfile w) ->
  Z.of_nat (length (f_bytes (cubfile w))) < offset + length_ ->
  exists w',
    internal_copy_data offset length_ w = Done (errno w) w' /\
    o_bytes (outfile w')
    = o_bytes (outfile w) ++ drop (Z.to_nat offset) (f_bytes (cubfile w)).
Proof.
  intros Hoff Hlen Hacc Hshort.
  destruct (internal_copy_data_spec offset length_ w)
    as (p & o & Hrun & Ho & _); try done; [lia|].
  eexists. split.
  - rewrite Hrun. rewrite decide_False; [reflexivity|].
    rewrite length_drop. lia.
  - simpl. rewrite Ho. f_equal. apply take_ge. rewrite length_drop. lia.
Qed.

(** C5 (code defect).  The sample file cut off four bytes into the
    ten-byte payload of block 0, with errno 0 on entry: [cub_file_block]
    copies the four bytes and returns 0, the value of success. *)
Theorem cub_file_block_truncated_payload :
  observe (cub_file_block LittleEndian 0 truncated_world)
  = Some (0, take 4 sample_payload).
Proof. reflexivity. Qed.

(** ** Lookup by type *)

Lemma type_loop_spec blocks count type suf : forall pre fuel w,
  blocks = pre ++ suf -> count = Z.of_nat (length blocks) ->
  (length suf < fuel)%nat ->
  type_loop fuel (Some <$> blocks) count type (Z.of_nat (length pre)) w
  = Done (Z.of_nat (length pre
                    + match first_of_type type suf with
                      | Some (j, _) => j
                      | None => length suf
                      end)) w.
Proof.
  induction suf as [|b suf IH]; intros pre fuel w Hblocks Hcount Hfuel;
    (destruct fuel as [|fuel]; [simpl in Hfuel; lia|]); cbn [type_loop].
  - rewrite app_nil_r in Hblocks. subst.
    rewrite Z.ltb_irrefl. simpl. by rewrite Nat.add_0_r.
  - assert (Hb : blocks !! Z.to_nat (Z.of_nat (length pre)) = Some b).
    { rewrite Nat2Z.id, Hblocks. by rewrite list_lookup_middle. }
    destruct (Z.ltb_spec (Z.of_nat (length pre)) count) as [_|Hge].
    2:{ subst. rewrite length_app in Hge. simpl in Hge. lia. }
    erewrite bind_Done by (apply block_at_fmap; [lia | exact Hb]).
    unfold first_of_type. cbn [list_find].
    destruct (Z.eqb_spec (b_type b) type) as [Heq|Hne]; cbn [negb].
    + rewrite decide_True by done. by rewrite Nat.add_0_r.
    + rewrite decide_False by done.
      replace (Z.of_nat (length pre) + 1) with (Z.of_nat (length (pre ++ [b])))
        by (rewrite length_app; simpl; lia).
      rewrite (IH (pre ++ [b])); [| by rewrite <- app_assoc | done | simpl in Hfuel; lia].
      do 2 f_equal. rewrite length_app. unfold first_of_type. simpl.
      destruct (list_find _ suf) as [[j ?]|]; simpl; lia.
Qed.




(** ** The listing *)

Lemma string_app_assoc (a b c : string) :
  ((a ++ b) ++ c)%string = (a ++ (b ++ c))%string.
Proof. induction a as [|x a IH]; simpl; [done | by rewrite IH]. Qed.

Lemma string_app_empty_r (a : string) : (a ++ EmptyString)%string = a.
Proof. induction a as [|x a IH]; simpl; [done | by rewrite IH]. Qed.

(** The lookup in [typenames] is always inside the table, and what it
    finds is the name of the kind. *)
Lemma row_typename_spec b w :
  0 <= b_type b -> row_typename b w = Done (kind_name (b_type b)) w.
Proof.
  intros Hk. unfold row_typename, typename_at, kind_name.
  destruct (Z.leb_spec (b_type b) CUB_FILE_ASSEMBLY) as [Hle|Hgt];
    unfold CUB_FILE_ASSEMBLY in *.
  - destruct (Z.ltb_spec (b_type b) 0); [lia|].
    assert (Hcase : b_type b = 0 \/ b_type b = 1 \/ b_type b = 2 \/
                    b_type b = 3 \/ b_type b = 4 \/ b_type b = 5 \/
                    b_type b = 6) by lia.
    destruct Hcase as [-> | [-> | [-> | [-> | [-> | [-> | ->]]]]]];
      reflexivity.
  - repeat match goal with
           | |- context [?a =? ?k] => destruct (Z.eqb_spec a k); [lia|]
           end.
    reflexivity.
Qed.

Lemma pad_left_spaces n s : (spaces n ++ s)%string = pad_left n s.
Proof. induction n as [|n IH]; simpl; [done | by rewrite IH]. Qed.

Lemma field_right_justify width s : field width s = right_justify width s.
Proof. apply pad_left_spaces. Qed.

(** The row [printf] builds is the line of the table. *)
Lemma format_row_table_row i b :
  format_row i (kind_name (b_type b)) b = table_row i b.
Proof.
  unfold format_row, table_row. by rewrite !field_right_justify.
Qed.

Lemma list_heading_table_heading : list_heading = table_heading.
Proof. reflexivity. Qed.

Lemma list_loop_spec blocks count suf : forall pre fuel out w,
  blocks = pre ++ suf -> count = Z.of_nat (length blocks) ->
  (length suf < fuel)%nat -> Forall block_in_range suf ->
  list_loop fuel (Some <$> blocks) count (Z.of_nat (length pre)) out w
  = Done (out ++ table_rows (Z.of_nat (length pre)) suf)%string w.
Proof.
  induction suf as [|b suf IH]; intros pre fuel out w Hblocks Hcount Hfuel Hrange;
    (destruct fuel as [|fuel]; [simpl in Hfuel; lia|]); cbn [list_loop].
  - rewrite app_nil_r in Hblocks. subst.
    rewrite Z.ltb_irrefl. simpl. by rewrite string_app_empty_r.
  - assert (Hb : blocks !! Z.to_nat (Z.of_nat (length pre)) = Some b).
    { rewrite Nat2Z.id, Hblocks. by rewrite list_lookup_middle. }
    destruct (Z.ltb_spec (Z.of_nat (length pre)) count) as [_|Hge].
    2:{ subst. rewrite length_app in Hge. simpl in Hge. lia. }
    inversion Hrange as [|? ? Hbr Hrest]; subst b suf.
    erewrite bind_Done by (apply block_at_fmap; [lia | exact Hb]).
    erewrite bind_Done by (apply row_typename_spec; apply Hbr).
    replace (Z.of_nat (length pre) + 1) with (Z.of_nat (length (pre ++ [x])))
      by (rewrite length_app; simpl; lia).
    rewrite (IH (pre ++ [x]));
      [| by rewrite <- app_assoc | done | simpl in Hfuel; lia | done].
    cbn [table_rows]. rewrite string_app_assoc, format_row_table_row.
    do 4 f_equal. rewrite length_app. simpl. lia.
Qed.

(** The listing of a file that parses. *)
Lemma cub_file_list_table host w swap count w1 blocks w2 :
  cub_file_check host w = Done (0, Some (swap, count)) w1 ->
  0 < count ->
  cub_file_contents host (malloc_blocks count) count w1
  = Done (0, Some <$> blocks) w2 ->
  cub_file_list host w = Done (table_heading ++ table_rows 0 blocks)%string w2.
Proof.
  intros Hcheck Hcount Hcontents.
  destruct (parsed_blocks _ _ _ _ _ Hcontents) as [Hlen Hrange].
  erewrite cub_file_list_parsed by (done || lia).
  rewrite list_heading_table_heading.
  apply (list_loop_spec blocks count blocks []); [done | lia | lia | done].
Qed.

(** C9.  For a file that parses (with a positive block count) the text
    the listing sends to the stream is the heading followed by one line
    per descriptor, and the line of a descriptor whose kind is outside
    0..6 - any other 32-bit value - has the placeholder "?" at the right
    of the name column: the type-name table is never indexed outside its
    seven entries. *)
Theorem cub_file_list_placeholder host w swap count w1 blocks w2 :
  cub_file_check host w = Done (0, Some (swap, count)) w1 ->
  0 < count ->
  cub_file_contents host (malloc_blocks count) count w1
  = Done (0, Some <$> blocks) w2 ->
  cub_file_list host w = Done (table_heading ++ table_rows 0 blocks)%string w2 /\
  forall (i : nat) b, blocks !! i = Some b -> ~ (0 <= b_type b <= 6) ->
    6 < b_type b < 4294967296 /\
    table_row (Z.of_nat i) b
    = (right_justify 3 (numeral (Z.of_nat i)) ++ "          ?  " ++
       right_justify 4 (numeral (b_type b)) ++ "  " ++
       right_justify 10 (numeral (b_offset b)) ++ "  " ++
       right_justify 10 (numeral (b_length b)) ++ line_end)%string.
Proof.
  intros Hcheck Hcount Hcontents.
  split; [by eapply cub_file_list_table|].
  destruct (parsed_blocks _ _ _ _ _ Hcontents) as [_ Hrange].
  intros i b Hb Hkind. rewrite Forall_lookup in Hrange.
  destruct (Hrange i b Hb) as (Htype & _).
  split; [lia|].
  unfold table_row, kind_name.
  repeat match goal with
         | |- context [?a =? ?k] => destruct (Z.eqb_spec a k); [lia|]
         end.
  reflexivity.
Qed.

Lemma cub_file_list_placeholder_witness :
  cub_file_list BigEndian odd_kinds_world
  = Done ("Idx  Type Name  Type      Offset      Length" ++ line_end ++
          "---  ---------  ----  ----------  ----------" ++ line_end ++
          "  0          ?    99          78          10" ++ line_end ++
          "  1          ?  4294967295          88           0" ++ line_end)%string
         (at_pos odd_kinds_world 78).
Proof.
  destruct (cub_file_list_placeholder BigEndian odd_kinds_world false 2
              (at_pos odd_kinds_world 28)
              [mkBlock 99 78 10; mkBlock 4294967295 88 0]
              (at_pos odd_kinds_world 78) eq_refl eq_refl eq_refl)
    as [Hlist _].
  exact Hlist.
Defined.

(** ** Byte order of the file and of the host *)

Lemma le_value_store v :
  0 <= v < 4294967296 ->
  le_value [byte_of_Z v; byte_of_Z (v / 256); byte_of_Z (v / 65536);
            byte_of_Z (v / 16777216)] = v.
Proof.
  intros Hv. cbn [le_value]. rewrite !byte_to_of_Z.
  replace (v / 65536) with (v / 256 / 256)
    by (rewrite Z.div_div by lia; reflexivity).
  replace (v / 16777216) with (v / 256 / 256 / 256)
    by (rewrite !Z.div_div by lia; reflexivity).
  pose proof (Z.div_mod v 256 ltac:(lia)).
  pose proof (Z.div_mod (v / 256) 256 ltac:(lia)).
  pose proof (Z.div_mod (v / 256 / 256) 256 ltac:(lia)).
  assert (0 <= v / 256 / 256 / 256 < 256).
  { split; [repeat apply Z.div_pos; lia|].
    repeat (apply Z.div_lt_upper_bound; [lia|]). lia. }
  rewrite (Z.mod_small (v / 256 / 256 / 256)) by lia. lia.
Qed.

Lemma encode_words_cons order v ws :
  encode_words order (v :: ws) = store32 order v ++ encode_words order ws.
Proof. reflexivity. Qed.

Lemma store32_length order v : length (store32 order v) = 4%nat.
Proof. by destruct order. Qed.

Lemma encode_words_length order ws :
  length (encode_words order ws) = (4 * length ws)%nat.
Proof.
  induction ws as [|v ws IH]; [done|].
  rewrite encode_words_cons, length_app, store32_length, IH. simpl. lia.
Qed.

(** The file writes a word in its order; the host, swapping when the tag
    is not its own, reads the same value back. *)
Lemma decode_store32 order host v :
  0 <= v < 4294967296 ->
  word_value host
    (if negb (endian_tag order =? endian_tag host)
     then swap_words (store32 order v) else store32 order v) = v.
Proof.
  intros Hv. destruct order, host;
    change (negb (_ =? _)) with false || change (negb (_ =? _)) with true;
    cbv iota; unfold store32, word_value;
    cbn [swap_words reverse rev_append]; by apply le_value_store.
Qed.

Lemma swap_words_app a b :
  length a = 4%nat -> swap_words (a ++ b) = swap_words a ++ swap_words b.
Proof.
  intros H. do 4 (destruct a as [|? a]; [done|]). by destruct a.
Qed.

(** Word [k] of a buffer filled with the encoding of [ws]. *)
Lemma decode_words order host ws : forall k v,
  ws !! k = Some v -> 0 <= v < 4294967296 ->
  let data := encode_words order ws in
  word_value host
    (take 4 (drop (4 * k)
       (if negb (endian_tag order =? endian_tag host)
        then swap_words data else data))) = v.
Proof.
  induction ws as [|x ws IH]; intros k v Hk Hv; [done|].
  cbv zeta. rewrite encode_words_cons.
  pose proof (store32_length order x) as Hx.
  assert (Hsx : length (swap_words (store32 order x)) = 4%nat)
    by by rewrite swap_words_length.
  destruct k as [|k].
  - injection Hk as ->. change (4 * 0)%nat with 0%nat. rewrite drop_0.
    rewrite <- (decode_store32 order host v Hv) at 3.
    destruct (negb _).
    + rewrite swap_words_app by done. by rewrite take_app_length'.
    + by rewrite take_app_length'.
  - simpl in Hk. specialize (IH k v Hk Hv). cbv zeta in IH.
    replace (4 * S k)%nat with (4 + 4 * k)%nat by lia.
    destruct (negb _).
    + rewrite swap_words_app by done.
      rewrite <- drop_drop. by rewrite drop_app_length'.
    + rewrite <- drop_drop. by rewrite drop_app_length'.
Qed.

Lemma check_file_internal_encoded host order rsv gap blocks rest w :
  f_bytes (cubfile w) = encode_file order rsv gap blocks rest ->
  Z.of_nat (length blocks) < 2147483648 ->
  28 + Z.of_nat (length gap) < 4294967296 ->
  check_file_internal host w
  = Done (0, Some (negb (endian_tag order =? endian_tag host),
                   Z.of_nat (length blocks), 28 + Z.of_nat (length gap)))
         (at_pos w 28).
Proof.
  intros Hbytes Hcount Hoff.
  rewrite check_file_internal_eq. unfold header_outcome. rewrite Hbytes.
  unfold encode_file, encode_header.
  set (ws := [endian_tag order; rsv; Z.of_nat (length blocks);
              28 + Z.of_nat (length gap); rsv; rsv]).
  set (tail := gap ++ (blocks ≫= encode_record order rsv) ++ rest).
  rewrite <- (app_assoc magic).
  assert (Hws : length (encode_words order ws) = 24%nat)
    by by rewrite encode_words_length.
  rewrite decide_False by (rewrite length_app; simpl; lia).
  rewrite decide_True by by rewrite take_app_length'.
  rewrite (drop_app_length' magic) by done.
  rewrite take_app_length' by done.
  rewrite decide_True by done.
  assert (Hd0 : word_value host (take 4 (encode_words order ws)) = endian_tag order)
    by (destruct order, host; reflexivity).
  rewrite Hd0.
  rewrite decide_True by (destruct order; [left | right]; reflexivity).
  pose proof (decode_words order host ws 2 _ eq_refl) as H2.
  pose proof (decode_words order host ws 3 _ eq_refl) as H3.
  cbv zeta in H2, H3.
  change (4 * 2)%nat with 8%nat in H2. change (4 * 3)%nat with 12%nat in H3.
  rewrite H2, H3 by lia.
  unfold to_int. rewrite Z.mod_small by lia.
  by rewrite Z.add_simpl_r.
Qed.

Lemma maybe_swap_bind {B} (swap : bool) data (k : list byte -> C B) w :
  length data = 24%nat ->
  ((if swap then swap_bytes data 6 4 else mret data) ≫= k) w
  = k (if swap then swap_words data else data) w.
Proof.
  intros Hlen. destruct swap; [|done].
  by erewrite bind_Done by by apply swap_bytes_24.
Qed.

Lemma contents_loop_encoded host order rsv suf :
  forall (i fuel : nat) dest w prefix rest,
  f_bytes (cubfile w) = prefix ++ (suf ≫= encode_record order rsv) ++ rest ->
  f_pos (cubfile w) = Z.of_nat (length prefix) ->
  Forall block_in_range suf ->
  (length suf < fuel)%nat ->
  (i + length suf <= length dest)%nat ->
  exists p,
    contents_loop fuel host (negb (endian_tag order =? endian_tag host))
                  (Z.of_nat (i + length suf)) (Z.of_nat i) dest w
    = Done (0, take i dest ++ (Some <$> suf) ++ drop (i + length suf) dest)
           (at_pos w p).
Proof.
  induction suf as [|b suf IH];
    intros i fuel dest w prefix rest Hbytes Hpos Hrange Hfuel Hdest;
    (destruct fuel as [|fuel]; [simpl in Hfuel; lia|]); cbn [contents_loop].
  - exists (f_pos (cubfile w)). rewrite world_eta.
    simpl. rewrite Nat.add_0_r, Z.ltb_irrefl. by rewrite take_drop.
  - inversion Hrange as [|? ? (Ht & Ho & Hl) Hrest]; subst.
    destruct (Z.ltb_spec (Z.of_nat i) (Z.of_nat (i + length (b :: suf))))
      as [_|Hge]; [|simpl in Hge; lia].
    set (record := encode_record order rsv b).
    assert (Hrec : length record = 24%nat)
      by (subst record; unfold encode_record; by rewrite encode_words_length).
    assert (Hread : fread_bytes 4 6 w = record).
    { unfold fread_bytes. rewrite Hbytes, Hpos, Nat2Z.id.
      rewrite drop_app_length. change (Z.to_nat (4 * 6)) with 24%nat.
      change ((b :: suf) ≫= encode_record order rsv)
        with (record ++ (suf ≫= encode_record order rsv)).
      rewrite <- app_assoc. by rewrite take_app_length'. }
    rewrite fread_bind, Hread, Hrec.
    change (negb (Z.of_nat 24 `div` 4 =? 6)) with false. cbv beta iota.
    rewrite maybe_swap_bind by done.
    rewrite load_bind, word_at_24 by (rewrite ?swap_words_length; destruct (negb _);
      rewrite ?swap_words_length; done || lia).
    rewrite load_bind, word_at_24 by (rewrite ?swap_words_length; destruct (negb _);
      rewrite ?swap_words_length; done || lia).
    rewrite load_bind, word_at_24 by (rewrite ?swap_words_length; destruct (negb _);
      rewrite ?swap_words_length; done || lia).
    subst record. unfold encode_record.
    rewrite (decode_words order host _ 0 (b_type b)) by done.
    rewrite (decode_words order host _ 1 (b_offset b)) by done.
    rewrite (decode_words order host _ 2 (b_length b)) by done.
    replace (mkBlock (b_type b) (b_offset b) (b_length b)) with b by by destruct b.
    unfold store_block.
    destruct (Z.leb_spec 0 (Z.of_nat i)); [|lia].
    destruct (Z.ltb_spec (Z.of_nat i) (Z.of_nat (length dest)));
      [|simpl in Hdest; lia].
    cbn [andb]. rewrite ret_bind. rewrite Nat2Z.id.
    replace (Z.of_nat i + 1) with (Z.of_nat (S i)) by lia.
    replace (i + length (b :: suf))%nat with (S i + length suf)%nat
      by (simpl; lia).
    edestruct (IH (S i) fuel (<[i := Some b]> dest)
                 (at_pos w (f_pos (cubfile w) + Z.of_nat 24))
                 (prefix ++ encode_record order rsv b) rest) as [p Hrun].
    + autorewrite with world. rewrite Hbytes.
      change ((b :: suf) ≫= encode_record order rsv)
        with (encode_record order rsv b ++ (suf ≫= encode_record order rsv)).
      by rewrite <- !app_assoc.
    + autorewrite with world. rewrite Hpos, length_app.
      unfold encode_record at 1. rewrite encode_words_length. simpl. lia.
    + done.
    + simpl in Hfuel. lia.
    + rewrite length_insert. simpl in Hdest. lia.
    + exists p. unfold encode_record in Hrun. rewrite Hrun.
      autorewrite with world. do 2 f_equal.
      rewrite (take_S_r _ _ (Some b))
        by (apply list_lookup_insert_eq; simpl in Hdest; lia).
      rewrite take_insert_ge by lia. rewrite drop_insert_lt by lia.
      by rewrite <- app_assoc.
Qed.

Lemma cub_file_contents_encoded host order rsv gap blocks rest dest capacity w :
  f_bytes (cubfile w) = encode_file order rsv gap blocks rest ->
  Forall block_in_range blocks ->
  Z.of_nat (length blocks) < 2147483648 ->
  28 + Z.of_nat (length gap) < 4294967296 ->
  Z.of_nat (length blocks) <= capacity ->
  (length blocks <= length dest)%nat ->
  returned (cub_file_contents host dest capacity w)
  = Some (0, (Some <$> blocks) ++ drop (length blocks) dest).
Proof.
  intros Hbytes Hrange Hcount Hoff Hcap Hdest. unfold cub_file_contents.
  erewrite bind_Done by by eapply check_file_internal_encoded.
  call_returned_0. rewrite load_bind. cbv beta iota.
  destruct (Z.ltb_spec capacity (Z.of_nat (length blocks))); [lia|].
  rewrite fseek_bind by lia. call_returned_0.
  rewrite Nat2Z.id.
  destruct (contents_loop_encoded host order rsv blocks 0 (S (length blocks)) dest
              (at_pos (at_pos w 28) (28 + Z.of_nat (length gap)))
              (encode_header order rsv (Z.of_nat (length blocks))
                 (28 + Z.of_nat (length gap)) ++ gap) rest) as [p Hrun].
  - autorewrite with world. rewrite Hbytes. unfold encode_file.
    by rewrite <- !app_assoc.
  - autorewrite with world. rewrite length_app. unfold encode_header.
    rewrite length_app, encode_words_length. simpl. lia.
  - done.
  - lia.
  - simpl. lia.
  - cbn [Nat.add] in Hrun. change (Z.of_nat 0) with 0 in Hrun.
    rewrite Hrun. by rewrite take_0.
Qed.

(** C3.  A table of contents written in either byte order and read by
    [cub_file_contents] on a host of either byte order gives the same
    result for all four pairings: the call returns 0 and the destination
    holds the descriptors that were written, field for field. *)
Theorem cub_file_contents_byte_order order1 host1 order2 host2
    rsv gap blocks rest dest capacity pos out e :
  Forall block_in_range blocks ->
  Z.of_nat (length blocks) < 2147483648 ->
  28 + Z.of_nat (length gap) < 4294967296 ->
  Z.of_nat (length blocks) <= capacity ->
  (length blocks <= length dest)%nat ->
  let read order host :=
    returned (cub_file_contents host dest capacity
                (mkWorld (mkFILE (encode_file order rsv gap blocks rest) pos) out e)) in
  read order1 host1 = read order2 host2 /\
  read order1 host1 = Some (0, (Some <$> blocks) ++ drop (length blocks) dest).
Proof.
  intros Hrange Hcount Hoff Hcap Hdest read. subst read. cbv beta.
  rewrite !(cub_file_contents_encoded _ _ rsv gap blocks rest) by done.
  done.
Qed.

Lemma cub_file_contents_byte_order_witness :
  let blocks := [mkBlock 99 78 10; mkBlock 4294967295 88 0] in
  let read order host :=
    returned (cub_file_contents host (malloc_blocks 3) 3
                (mkWorld (mkFILE (encode_file order 7 [x00; x00] blocks [])
                                 0) (mkOFILE [] []) 0)) in
  read BigEndian LittleEndian = read LittleEndian LittleEndian /\
  read BigEndian LittleEndian = Some (0, (Some <$> blocks) ++ [None]).
Proof.
  apply (cub_file_contents_byte_order BigEndian LittleEndian
           LittleEndian LittleEndian 7 [x00; x00]
           [mkBlock 99 78 10; mkBlock 4294967295 88 0] [] (malloc_blocks 3) 3).
  - repeat constructor; simpl; lia.
  - simpl. lia.
  - simpl. lia.
  - simpl. lia.
  - simpl. lia.
Defined.

(** Every file laid out as section 6 describes parses, on either host:
    the hypotheses of the theorems about files that parse hold for it. *)
Lemma encoded_file_parses host order rsv gap blocks rest w :
  f_bytes (cubfile w) = encode_file order rsv gap blocks rest ->
  Forall block_in_range blocks ->
  Z.of_nat (length blocks) < 2147483648 ->
  28 + Z.of_nat (length gap) < 4294967296 ->
  exists swap w1 w2,
    cub_file_check host w
    = Done (0, Some (swap, Z.of_nat (length blocks))) w1 /\
    cub_file_contents host (malloc_blocks (Z.of_nat (length blocks)))
                      (Z.of_nat (length blocks)) w1
    = Done (0, Some <$> blocks) w2.
Proof.
  intros Hbytes Hrange Hcount Hoff.
  pose proof (check_file_internal_encoded host _ _ _ _ _ _ Hbytes Hcount Hoff)
    as Hcheck.
  eexists _, (at_pos w 28). 
  assert (Hc : cub_file_check host w
               = Done (0, Some (negb (endian_tag order =? endian_tag host),
                                Z.of_nat (length blocks))) (at_pos w 28)).
  { unfold cub_file_check. erewrite bind_Done by exact Hcheck. reflexivity. }
  assert (Hlen : length (malloc_blocks (Z.of_nat (length blocks)))
                 = length blocks)
    by (unfold malloc_blocks; rewrite length_replicate; lia).
  pose proof (cub_file_contents_encoded host order rsv gap blocks rest
                (malloc_blocks (Z.of_nat (length blocks)))
                (Z.of_nat (length blocks)) (at_pos w 28)
                Hbytes Hrange Hcount Hoff ltac:(lia) ltac:(lia)) as Hread.
  rewrite drop_ge, app_nil_r in Hread by lia.
  destruct (cub_file_contents host _ _ (at_pos w 28)) as [r w2| |];
    [|done|done].
  injection Hread as ->. by exists w2.
Qed.

(** ** The fuel given to the loops is enough *)

Lemma bind_fuel {A B} (m : C A) (k : A -> C B) w :
  m w ≠ OutOfFuel ->
  (forall a w', m w = Done a w' -> k a w' ≠ OutOfFuel) ->
  (m ≫= k) w ≠ OutOfFuel.
Proof.
  unfold mbind, C_bind. destruct (m w) as [a w'| |]; [|done|done].
  intros _ Hk. by apply Hk.
Qed.

Lemma load_fuel {A} (o : option A) w : load o w ≠ OutOfFuel.
Proof. by destruct o. Qed.

Lemma fseek_fuel offset w : fseek offset w ≠ OutOfFuel.
Proof. unfold fseek. by destruct (offset <? 0). Qed.

Lemma fwrite_fuel ptr count w : fwrite ptr count w ≠ OutOfFuel.
Proof. unfold fwrite. by destruct (o_accept (outfile w)) as [|[|a] rest]. Qed.

(** Lemmas about the functions of the library, added as they are proved. *)
Ltac fuel_known := fail.

(** Goes through the binds, conditionals and destructuring lets of a
    computation; what is left are the calls of loops. *)
Ltac fuel_auto :=
  repeat first
    [ fuel_known
    | apply load_fuel
    | apply fseek_fuel
    | apply fwrite_fuel
    | done
    | apply bind_fuel; [|intros ? ? ?]
    | match goal with
      | |- (if ?c then _ else _) _ ≠ OutOfFuel => destruct c eqn:?
      | |- (let '(_, _) := ?x in _) _ ≠ OutOfFuel => destruct x
      | |- (match ?x with Some _ => _ | None => _ end) _ ≠ OutOfFuel =>
          destruct x
      end ].

Lemma swap_inner_fuel fuel : forall bytes start end_ w,
  (end_ - start < fuel)%nat -> swap_inner fuel bytes start end_ w ≠ OutOfFuel.
Proof.
  induction fuel as [|fuel IH]; intros bytes start end_ w Hfuel; [lia|].
  cbn [swap_inner]. case_bool_decide; [|done].
  fuel_auto. apply IH. lia.
Qed.

Lemma swap_outer_fuel fuel : forall n bytes curptr endptr width w,
  (endptr <= curptr + n * width)%nat -> (n < fuel)%nat ->
  swap_outer fuel bytes curptr endptr width w ≠ OutOfFuel.
Proof.
  induction fuel as [|fuel IH]; intros n bytes curptr endptr width w Hend Hfuel;
    [lia|].
  cbn [swap_outer]. case_bool_decide; [|done].
  destruct n as [|n]; [lia|].
  apply bind_fuel; [apply swap_inner_fuel; lia|]. intros bytes' w' _.
  apply (IH n); lia.
Qed.

Lemma swap_bytes_fuel bytes count width w :
  swap_bytes bytes count width w ≠ OutOfFuel.
Proof. apply (swap_outer_fuel _ count); lia. Qed.

Lemma store_block_fuel blocks i v w : store_block blocks i v w ≠ OutOfFuel.
Proof. unfold store_block. by destruct (_ && _). Qed.

Lemma block_at_fuel data i w : block_at data i w ≠ OutOfFuel.
Proof. unfold block_at. fuel_auto. Qed.

Lemma check_file_internal_fuel host w : check_file_internal host w ≠ OutOfFuel.
Proof.
  rewrite check_file_internal_eq. unfold header_outcome.
  by repeat case_decide.
Qed.

Ltac fuel_known ::=
  first [ apply swap_bytes_fuel | apply store_block_fuel | apply block_at_fuel
        | apply check_file_internal_fuel ].

Lemma contents_loop_fuel fuel host swap count : forall i blocks w,
  (Z.to_nat (count - i) < fuel)%nat ->
  contents_loop fuel host swap count i blocks w ≠ OutOfFuel.
Proof.
  induction fuel as [|fuel IH]; intros i blocks w Hfuel; [lia|].
  cbn [contents_loop]. destruct (Z.ltb_spec i count); [|done].
  fuel_auto. apply IH. lia.
Qed.

Lemma cub_file_check_fuel host w : cub_file_check host w ≠ OutOfFuel.
Proof. unfold cub_file_check. fuel_auto. Qed.

Lemma cub_file_contents_fuel host blocks blocks_length w :
  cub_file_contents host blocks blocks_length w ≠ OutOfFuel.
Proof.
  unfold cub_file_contents. fuel_auto. apply contents_loop_fuel. lia.
Qed.

Lemma fwrite_result ptr count w ww w' :
  0 < count -> fwrite ptr count w = Done ww w' -> 0 <= ww <= count.
Proof.
  unfold fwrite. intros Hcount.
  destruct (o_accept (outfile w)) as [|[|a] rest]; intros [= <- <-]; lia.
Qed.

Lemma write_loop_fuel fuel buffer : forall ptr count w,
  0 <= count -> (Z.to_nat count < fuel)%nat ->
  write_loop fuel buffer ptr count w ≠ OutOfFuel.
Proof.
  induction fuel as [|fuel IH]; intros ptr count w Hcount Hfuel; [lia|].
  cbn [write_loop]. destruct (Z.eqb_spec count 0); [done|]. cbn [negb].
  apply bind_fuel; [apply fwrite_fuel|].
  intros ww w' Hw. apply fwrite_result in Hw; [|lia].
  destruct (Z.eqb_spec ww 0); [fuel_auto|]. apply IH; lia.
Qed.

Lemma copy_loop_fuel fuel : forall length_ w,
  0 <= length_ -> (Z.to_nat length_ < fuel)%nat ->
  copy_loop fuel length_ w ≠ OutOfFuel.
Proof.
  induction fuel as [|fuel IH]; intros len w Hlen Hfuel; [lia|].
  cbn [copy_loop]. destruct (Z.eqb_spec len 0) as [|Hne]; [done|]. cbn [negb].
  rewrite fread_bind. cbv beta iota zeta. rewrite Z.div_1_r.
  set (count := if len <? 1024 then len else 1024).
  assert (Hcount : 1 <= count <= len)
    by (subst count; destruct (Z.ltb_spec len 1024); lia).
  set (n := Z.of_nat (length (fread_bytes 1 count w))).
  assert (Hn : 0 <= n <= count).
  { subst n. unfold fread_bytes. rewrite length_take. lia. }
  destruct (Z.eqb_spec n 0) as [|Hnz]; [done|].
  apply bind_fuel; [apply write_loop_fuel; lia|]. intros [e|] w' _; [done|].
  apply IH; lia.
Qed.

Lemma internal_copy_data_fuel offset length_ w :
  0 <= length_ -> internal_copy_data offset length_ w ≠ OutOfFuel.
Proof.
  intros Hlen. unfold internal_copy_data. fuel_auto.
  apply copy_loop_fuel; lia.
Qed.

Lemma type_loop_fuel fuel data count type : forall i w,
  (Z.to_nat (count - i) < fuel)%nat ->
  type_loop fuel data count type i w ≠ OutOfFuel.
Proof.
  induction fuel as [|fuel IH]; intros i w Hfuel; [lia|].
  cbn [type_loop]. destruct (Z.ltb_spec i count); [|done].
  fuel_auto. apply IH. lia.
Qed.

Lemma row_typename_fuel b w : row_typename b w ≠ OutOfFuel.
Proof. unfold row_typename, typename_at. fuel_auto. Qed.

Lemma list_loop_fuel fuel data count : forall i out w,
  (Z.to_nat (count - i) < fuel)%nat ->
  list_loop fuel data count i out w ≠ OutOfFuel.
Proof.
  induction fuel as [|fuel IH]; intros i out w Hfuel; [lia|].
  cbn [list_loop]. destruct (Z.ltb_spec i count); [|done].
  fuel_auto; [apply row_typename_fuel|]. apply IH. lia.
Qed.

Lemma malloc_fuel count w : malloc count w ≠ OutOfFuel.
Proof. unfold malloc. by destruct (count <? 0). Qed.

(** Whether it fails or not, [malloc] hands out [malloc_blocks count]:
    for a negative [count] that is the array without elements. *)
Lemma malloc_array count w data w' :
  malloc count w = Done data w' -> data = malloc_blocks count.
Proof.
  unfold malloc, malloc_blocks.
  destruct (Z.ltb_spec count 0) as [Hneg|]; intros [= <- <-]; [|done].
  by replace (Z.to_nat count) with 0%nat by lia.
Qed.

Lemma print_error_fuel err w : print_error err w ≠ OutOfFuel.
Proof. unfold print_error. fuel_auto. Qed.

Lemma block_at_range count data i b host w0 w1 w w' :
  cub_file_contents host (malloc_blocks count) count w0 = Done (0, data) w1 ->
  block_at data i w = Done b w' -> block_in_range b.
Proof.
  intros Hcontents Hb. apply cub_file_contents_inv in Hcontents as [_ Hin].
  unfold block_at in Hb. destruct (i <? 0); [done|].
  rewrite load_bind in Hb.
  destruct (data !! Z.to_nat i) as [[b'|]|] eqn:E; try done.
  injection Hb as <- <-. by apply (Hin (Z.to_nat i)).
Qed.

Ltac fuel_known ::=
  first [ match goal with |- internal_copy_data _ _ _ ≠ _ => idtac end
        | apply swap_bytes_fuel | apply store_block_fuel | apply block_at_fuel
        | apply check_file_internal_fuel | apply cub_file_check_fuel
        | apply cub_file_contents_fuel | apply print_error_fuel
        | apply malloc_fuel
        | apply row_typename_fuel
        | apply type_loop_fuel; lia | apply list_loop_fuel; lia ].

(** After a successful TOC read into a fresh array, the block taken from
    it is copied without running out of fuel. *)
Lemma copy_of_block_fuel host count w0 result data w1 i b w w' w'' :
  cub_file_contents host (malloc_blocks count) count w0 = Done (result, data) w1 ->
  negb (result =? 0) = false ->
  block_at data i w = Done b w' ->
  internal_copy_data (b_offset b) (b_length b) w'' ≠ OutOfFuel.
Proof.
  intros Hcontents Hres Hb.
  destruct (Z.eqb_spec result 0) as [->|]; [|done].
  apply internal_copy_data_fuel.
  apply (block_at_range _ _ _ _ _ _ _ _ _ Hcontents Hb).
Qed.

(** X17.  Every loop of the library ends: the TOC loops after at most
    [count] rounds, the copy loops because each round moves at least one
    byte or returns.  No call runs out of the fuel that bounds its loops
    by these numbers, whatever the file, the output stream and errno. *)
Theorem calls_never_run_out_of_fuel host w :
  cub_file_check host w ≠ OutOfFuel /\
  (forall blocks blocks_length,
     cub_file_contents host blocks blocks_length w ≠ OutOfFuel) /\
  (forall block, cub_file_block host block w ≠ OutOfFuel) /\
  (forall type, cub_file_type host type w ≠ OutOfFuel) /\
  cub_file_list host w ≠ OutOfFuel.
Proof.
  split; [apply cub_file_check_fuel|].
  split; [intros; apply cub_file_contents_fuel|].
  split; [|split].
  - intros block. unfold cub_file_block. cbv zeta. fuel_auto.
    match goal with
    | H : malloc _ _ = Done _ _ |- _ => apply malloc_array in H; subst
    end.
    eapply copy_of_block_fuel; eauto.
  - intros type. unfold cub_file_type. cbv zeta. fuel_auto.
    match goal with
    | H : malloc _ _ = Done _ _ |- _ => apply malloc_array in H; subst
    end.
    eapply copy_of_block_fuel; eauto.
  - unfold cub_file_list. cbv zeta. fuel_auto.
Qed.

(** ** The sample file, call by call *)

Example sample_check_little_endian_host :
  returned (cub_file_check LittleEndian sample_world) = Some (0, Some (false, 2)).
Proof. reflexivity. Qed.

Example sample_check_big_endian_host :
  returned (cub_file_check BigEndian sample_world) = Some (0, Some (true, 2)).
Proof. reflexivity. Qed.

Example sample_block_0 :
  observe (cub_file_block BigEndian 0 sample_world) = Some (0, sample_payload).
Proof. reflexivity. Qed.

Example sample_block_1_is_absent :
  observe (cub_file_block BigEndian 1 sample_world) = Some (CUB_FILE_NOT_FOUND, []).
Proof. reflexivity. Qed.

Example sample_block_2_is_out_of_range :
  observe (cub_file_block BigEndian 2 sample_world) = Some (CUB_FILE_NOT_FOUND, []).
Proof. reflexivity. Qed.

Example sample_type_mesh :
  observe (cub_file_type LittleEndian 2 sample_world) = Some (0, sample_payload).
Proof. reflexivity. Qed.

Example sample_type_granite_is_absent :
  observe (cub_file_type LittleEndian 5 sample_world) = Some (CUB_FILE_NOT_FOUND, []).
Proof. reflexivity. Qed.

(** A write that fails ends the copy with the errno it set. *)
Example sample_block_0_failing_write :
  observe (cub_file_block LittleEndian 0
             (mkWorld (cubfile sample_world) (mkOFILE [] [3; 0; 2]%nat) 0))
  = Some (EIO, take 3 sample_payload).
Proof. reflexivity. Qed.

(** A header that ends early: with errno 0 on entry the internal check
    returns 0 without having assigned the block count. *)
Example short_header_returns_errno :
  returned (check_file_internal LittleEndian (world_of (take 20 sample_bytes)))
  = Some (0, None).
Proof. reflexivity. Qed.

Example listing_of_sample :
  returned (cub_file_list LittleEndian sample_world)
  = Some (list_heading
          ++ "  0       MESH     2          76          10" ++ newline
          ++ "  1          ?     0          86           0" ++ newline)%string.
Proof. reflexivity. Qed.

(** Two full chunks and a remainder, through writes of uneven sizes. *)
Example long_block_is_copied_whole :
  observe (cub_file_block LittleEndian 0 long_world) = Some (0, long_payload).
Proof. vm_compute. reflexivity. Qed.

(** An offset of 2^63 reaches [fseek] as a negative [long]: the seek
    fails and the copy returns the errno it set. *)
Example seek_beyond_long :
  observe (internal_copy_data 9223372036854775808 10 sample_world)
  = Some (EINVAL, []).
Proof. reflexivity. Qed.

(** * Further properties of the library *)

(** ** Byte swapping in general *)

(** The inner loop reverses the bytes between [start] and [end_]. *)
Lemma swap_inner_spec fuel : forall pre mid post start end_ w,
  start = length pre -> S end_ = (length pre + length mid)%nat ->
  (length mid < 2 * fuel)%nat ->
  swap_inner fuel (pre ++ mid ++ post) start end_ w
  = Done (pre ++ reverse mid ++ post) w.
Proof.
  induction fuel as [|fuel IH]; intros pre mid post start end_ w Hs He Hfuel;
    [lia|].
  cbn [swap_inner]. subst start.
  destruct mid as [|x mid].
  { rewrite bool_decide_eq_false_2 by (simpl in He; lia). done. }
  destruct mid as [|y mid _] using rev_ind.
  { rewrite bool_decide_eq_false_2 by (simpl in He; lia). done. }
  rewrite length_cons, length_app in He. simpl in He.
  rewrite bool_decide_eq_true_2 by lia.
  change ((x :: mid ++ [y]) ++ post) with (x :: (mid ++ [y]) ++ post).
  assert (Hx : (pre ++ x :: (mid ++ [y]) ++ post) !! length pre = Some x)
    by by apply list_lookup_middle.
  assert (Hy : (pre ++ x :: (mid ++ [y]) ++ post) !! end_ = Some y).
  { replace (pre ++ x :: (mid ++ [y]) ++ post)
      with ((pre ++ x :: mid) ++ y :: post)
      by (simpl; by rewrite <- !app_assoc).
    apply list_lookup_middle. rewrite length_app. simpl. lia. }
  rewrite load_bind, Hx, load_bind, Hy.
  replace (<[end_:=x]> (<[length pre:=y]> (pre ++ x :: (mid ++ [y]) ++ post)))
    with ((pre ++ [y]) ++ mid ++ (x :: post)).
  - rewrite (IH (pre ++ [y]) mid (x :: post));
      [| rewrite length_app; simpl; lia | rewrite length_app; simpl; lia
       | rewrite length_cons, length_app in Hfuel; simpl in Hfuel; lia ].
    rewrite reverse_cons, reverse_snoc. simpl. by rewrite <- !app_assoc.
  - replace (length pre) with (length pre + 0)%nat at 1 by lia.
    rewrite insert_app_r. simpl.
    replace (pre ++ y :: (mid ++ [y]) ++ post)
      with ((pre ++ y :: mid) ++ y :: post)
      by (simpl; by rewrite <- !app_assoc).
    replace end_ with (length (pre ++ y :: mid) + 0)%nat
      by (rewrite length_app; simpl; lia).
    rewrite insert_app_r. simpl. by rewrite <- !app_assoc.
Qed.

(** The outer loop goes through the elements one after the other. *)
Lemma swap_outer_spec width chunks : forall fuel pre post w,
  (0 < width)%nat -> Forall (λ c : list byte, length c = width) chunks ->
  (length chunks < fuel)%nat ->
  swap_outer fuel (pre ++ concat chunks ++ post) (length pre)
             (length pre + length chunks * width) width w
  = Done (pre ++ concat (reverse <$> chunks) ++ post) w.
Proof.
  induction chunks as [|c chunks IH]; intros fuel pre post w Hw Hlen Hfuel;
    (destruct fuel as [|fuel]; [simpl in Hfuel; lia|]); cbn [swap_outer].
  { rewrite bool_decide_eq_false_2 by (simpl; lia). done. }
  inversion Hlen as [|? ? Hc Hrest]; subst.
  rewrite bool_decide_eq_true_2 by (simpl; lia).
  rewrite concat_cons, <- app_assoc.
  erewrite bind_Done
    by (apply swap_inner_spec; [done | lia | lia]).
  rewrite fmap_cons, concat_cons, <- (app_assoc (reverse c)).
  rewrite !(app_assoc pre).
  replace (length pre + length c)%nat with (length (pre ++ reverse c))
    by (rewrite length_app, length_reverse; lia).
  replace (length pre + length (c :: chunks) * length c)%nat
    with (length (pre ++ reverse c) + length chunks * length c)%nat
    by (rewrite length_app, length_reverse; simpl; lia).
  apply IH; [done | done | simpl in Hfuel; lia].
Qed.

Lemma concat_of_empty (cs : list (list byte)) :
  Forall (λ c, length c = 0%nat) cs -> concat cs = [].
Proof.
  induction cs as [|c cs IH]; [done|]. intros Hcs.
  inversion Hcs as [|? ? Hc Hrest]; subst.
  apply length_zero_iff_nil in Hc. subst. simpl. by apply IH.
Qed.

Lemma reversed_chunks width (chunks : list (list byte)) :
  Forall (λ c, length c = width) chunks ->
  Forall (λ c, length c = width) (reverse <$> chunks).
Proof.
  intros Hlen. apply Forall_fmap. eapply Forall_impl; [exact Hlen|].
  intros c Hc. simpl. by rewrite length_reverse.
Qed.

(** X1.  [swap_bytes] on a buffer that starts with [count] elements of
    [width] bytes reverses the bytes of each element, keeps the elements
    in place, and leaves the bytes after them as they are; it reads and
    writes inside the elements only. *)
Theorem swap_bytes_reverses_each_element width chunks post w :
  Forall (λ c : list byte, length c = width) chunks ->
  swap_bytes (concat chunks ++ post) (length chunks) width w
  = Done (concat (reverse <$> chunks) ++ post) w.
Proof.
  intros Hlen. unfold swap_bytes.
  destruct width as [|width].
  - rewrite (concat_of_empty chunks Hlen).
    rewrite (concat_of_empty (reverse <$> chunks))
      by by apply reversed_chunks.
    cbn [swap_outer]. rewrite bool_decide_eq_false_2 by lia. done.
  - apply (swap_outer_spec (S width) chunks (S (length chunks)) [] post w);
      [lia | done | lia].
Qed.

Lemma swap_bytes_reverses_each_element_witness :
  swap_bytes (concat [[x01; x02; x03]; [x04; x05; x06]] ++ [x07]) 2 3
             sample_world
  = Done ([x03; x02; x01; x06; x05; x04] ++ [x07]) sample_world.
Proof.
  apply (swap_bytes_reverses_each_element 3 [[x01; x02; x03]; [x04; x05; x06]]).
  repeat constructor.
Defined.

(** X2.  Swapping twice gives the buffer back. *)
Theorem swap_bytes_twice width chunks post w :
  Forall (λ c : list byte, length c = width) chunks ->
  (bytes ← swap_bytes (concat chunks ++ post) (length chunks) width;
   swap_bytes bytes (length chunks) width) w
  = Done (concat chunks ++ post) w.
Proof.
  intros Hlen. pose proof (reversed_chunks width chunks Hlen) as Hrev.
  unfold swap_bytes. destruct width as [|width].
  - rewrite (concat_of_empty chunks Hlen).
    cbn [swap_outer]. rewrite bool_decide_eq_false_2 by lia.
    by rewrite ret_bind.
  - erewrite bind_Done
      by (apply (swap_outer_spec (S width) chunks (S (length chunks)) [] post w);
          [lia | done | lia]).
    replace (length chunks) with (length (reverse <$> chunks))
      by by rewrite length_fmap.
    assert (Hback : reverse <$> (reverse <$> chunks) = chunks).
    { rewrite <- list_fmap_compose.
      rewrite (list_fmap_ext (reverse ∘ reverse) id chunks)
        by (intros; simpl; apply reverse_involutive).
      by rewrite list_fmap_id. }
    pose proof (swap_outer_spec (S width) (reverse <$> chunks)
                  (S (length (reverse <$> chunks))) [] post w
                  ltac:(lia) Hrev ltac:(lia)) as Hsecond.
    rewrite Hback in Hsecond. exact Hsecond.
Qed.

Lemma swap_bytes_twice_witness :
  (bytes ← swap_bytes (concat [[x01; x02]; [x03; x04]] ++ [x05]) 2 2;
   swap_bytes bytes 2 2) sample_world
  = Done (concat [[x01; x02]; [x03; x04]] ++ [x05]) sample_world.
Proof.
  apply (swap_bytes_twice 2 [[x01; x02]; [x03; x04]]).
  repeat constructor.
Defined.
(** ** Error texts *)

(** X3.  [print_error] never leaves its table of five texts.  For every
    code above the least [int]: 0 and the library's four codes get their
    text, every code below -4 gets UNKNOWN ERROR, and for a positive
    code (an errno, which goes to [perror]) nothing is sent to
    [stream]. *)
Theorem print_error_texts w :
  returned (print_error 0 w) = Some ("OKAY" ++ line_end)%string /\
  returned (print_error CUB_FILE_INVALID w)
  = Some ("INVALID FILE" ++ line_end)%string /\
  returned (print_error CUB_FILE_CORRUPT w)
  = Some ("CORRUPT FILE" ++ line_end)%string /\
  returned (print_error CUB_FILE_OVERFLOW w)
  = Some ("OVERFLOW" ++ line_end)%string /\
  returned (print_error CUB_FILE_NOT_FOUND w)
  = Some ("NOT FOUND" ++ line_end)%string /\
  (forall err, -2147483648 < err < -4 ->
     returned (print_error err w) = Some ("UNKNOWN ERROR" ++ line_end)%string) /\
  (forall err, 0 < err -> returned (print_error err w) = Some EmptyString) /\
  (forall err, -2147483648 < err ->
     exists text, returned (print_error err w) = Some text).
Proof.
  repeat split; try reflexivity.
  - intros err Herr. unfold print_error.
    destruct (Z.gtb_spec err 0); [lia|].
    destruct (Z.eqb_spec err (-2147483648)); [lia|].
    match goal with |- context [?a >=? ?b] =>
      destruct (Z.geb_spec a b) as [|Hlt] end; [done | simpl in Hlt; lia].
  - intros err Herr. unfold print_error.
    destruct (Z.gtb_spec err 0); [done | lia].
  - intros err Herr. unfold print_error.
    destruct (Z.gtb_spec err 0); [by eexists|].
    destruct (Z.eqb_spec err (-2147483648)); [lia|].
    match goal with |- context [?a >=? ?b] =>
      destruct (Z.geb_spec a b) as [|Hlt] end; [by eexists|].
    simpl in Hlt. rewrite load_bind.
    assert (Hcase : err = 0 \/ err = -1 \/ err = -2 \/ err = -3 \/ err = -4) by lia.
    destruct Hcase as [-> | [-> | [-> | [-> | ->]]]]; by eexists.
Qed.

(** ** Calls that only read *)

(** X4.  The header check and the TOC read only move the cursor of the
    input: whenever they return, the bytes of the file, the stream the
    extraction calls write to and errno are as they were before the
    call. *)
Theorem reading_calls_change_the_cursor_only host :
  reads_only (cub_file_check host) /\
  (forall blocks blocks_length,
     reads_only (cub_file_contents host blocks blocks_length)).
Proof.
  split; [apply reads_only_cub_file_check|].
  intros; apply reads_only_cub_file_contents.
Qed.

(** ** Files that end inside the header *)

Lemma header_outcome_short host w :
  (length (f_bytes (cubfile w)) < 4)%nat \/
  (take 4 (f_bytes (cubfile w)) = magic /\
   (length (f_bytes (cubfile w)) < 28)%nat) ->
  header_outcome host w
  = Done (errno w, None) (at_pos w (Z.of_nat (length (f_bytes (cubfile w))))).
Proof.
  intros Hshort. unfold header_outcome.
  destruct (decide (length (f_bytes (cubfile w)) < 4)%nat) as [|Hlong]; [done|].
  destruct Hshort as [|[Hmagic Hlen]]; [done|].
  rewrite decide_True by done.
  rewrite decide_False by (rewrite length_take, length_drop; lia).
  do 2 f_equal. rewrite length_take, length_drop. lia.
Qed.

(** X5.  When the file ends before the magic or, with the right magic,
    before the sixth header word, [check_file_internal] leaves the cursor
    at the end of the file and returns errno as it was on entry, without
    having assigned [*swap], [*count] or [*offset]; [cub_file_check]
    returns the same value - 0, the value of success, when no earlier
    call had failed. *)
Theorem cub_file_check_short_file host w :
  (length (f_bytes (cubfile w)) < 4)%nat \/
  (take 4 (f_bytes (cubfile w)) = magic /\
   (length (f_bytes (cubfile w)) < 28)%nat) ->
  check_file_internal host w
  = Done (errno w, None) (at_pos w (Z.of_nat (length (f_bytes (cubfile w))))) /\
  fst <$> returned (cub_file_check host w) = Some (errno w).
Proof.
  intros Hshort. split.
  - rewrite check_file_internal_eq. by apply header_outcome_short.
  - rewrite cub_file_check_eq, header_outcome_short by done.
    destruct (Z.eqb_spec (errno w) 0) as [Hz|]; simpl; [|done].
    by rewrite Hz.
Qed.

Lemma cub_file_check_short_file_witness :
  check_file_internal BigEndian (world_of [x43; x55])
  = Done (0, None) (at_pos (world_of [x43; x55]) 2) /\
  fst <$> returned (cub_file_check BigEndian (world_of [x43; x55])) = Some 0.
Proof.
  apply (cub_file_check_short_file BigEndian (world_of [x43; x55])).
  left. simpl. lia.
Defined.

(** X6.  On such a file, with a non-zero errno on entry, the lookups
    return that errno and write nothing; with errno 0 they go on after
    the check and use the block count that was never assigned. *)
Theorem lookups_on_short_file host w :
  (length (f_bytes (cubfile w)) < 4)%nat \/
  (take 4 (f_bytes (cubfile w)) = magic /\
   (length (f_bytes (cubfile w)) < 28)%nat) ->
  let w1 := at_pos w (Z.of_nat (length (f_bytes (cubfile w)))) in
  (errno w ≠ 0 ->
   (forall block, cub_file_block host block w = Done (errno w) w1) /\
   (forall type, cub_file_type host type w = Done (errno w) w1)) /\
  (errno w = 0 ->
   (forall block, cub_file_block host block w = Undefined) /\
   (forall type, cub_file_type host type w = Undefined) /\
   cub_file_list host w = Undefined).
Proof.
  intros Hshort w1. pose proof (cub_file_check_eq host w) as Hcheck.
  rewrite header_outcome_short in Hcheck by done. split.
  - intros Herr. apply Z.eqb_neq in Herr. rewrite Herr in Hcheck.
    split; intros; unfold cub_file_block, cub_file_type;
      erewrite bind_Done by exact Hcheck; cbv beta iota; by rewrite Herr.
  - intros Herr. rewrite Herr in Hcheck. cbn in Hcheck.
    repeat split; intros; unfold cub_file_block, cub_file_type, cub_file_list;
      erewrite bind_Done by exact Hcheck; reflexivity.
Qed.

Lemma lookups_on_short_file_witness :
  (forall block,
     cub_file_block LittleEndian block
       (mkWorld (mkFILE (take 20 sample_bytes) 0) (mkOFILE [] []) 2)
     = Done 2 (mkWorld (mkFILE (take 20 sample_bytes) 20) (mkOFILE [] []) 2)) /\
  (forall block,
     cub_file_block LittleEndian block (world_of (take 20 sample_bytes))
     = Undefined).
Proof.
  split.
  - intros block.
    refine (proj1 (proj1 (lookups_on_short_file LittleEndian
              (mkWorld (mkFILE (take 20 sample_bytes) 0) (mkOFILE [] []) 2) _) _)
              block).
    + right. split; [reflexivity | vm_compute; lia].
    + discriminate.
  - intros block.
    refine (proj1 (proj2 (lookups_on_short_file LittleEndian
              (world_of (take 20 sample_bytes)) _) _) block).
    + right. split; [reflexivity | vm_compute; lia].
    + reflexivity.
Defined.

(** ** Where the TOC read writes *)

Lemma contents_loop_writes_between fuel host swap count : forall i dest r dest' w w',
  0 <= i ->
  contents_loop fuel host swap count i dest w = Done (r, dest') w' ->
  forall j, Z.of_nat j < i \/ count <= Z.of_nat j -> dest' !! j = dest !! j.
Proof.
  induction fuel as [|fuel IH]; intros i dest r dest' w w' Hi; [done|].
  cbn [contents_loop].
  destruct (Z.ltb_spec i count) as [Hlt|Hge]; [|by intros [= <- <- <-]].
  rewrite fread_bind. cbv beta iota.
  destruct (negb _); [by intros [= <- <- <-]|].
  intros H. apply bind_inv in H as (data & w1 & _ & H).
  rewrite load_bind in H.
  destruct (word_at host data 0) as [d0|]; [|done].
  rewrite load_bind in H.
  destruct (word_at host data 1) as [d1|]; [|done].
  rewrite load_bind in H.
  destruct (word_at host data 2) as [d2|]; [|done].
  apply bind_inv in H as (dest1 & w2 & Hst & H).
  unfold store_block in Hst. destruct (_ && _); [|done].
  injection Hst as <- <-. intros j Hj.
  assert (Hi' : 0 <= i + 1) by lia.
  rewrite (IH (i + 1) _ _ _ _ _ Hi' H j) by lia.
  apply list_lookup_insert_ne. lia.
Qed.

(** X7.  Whatever [cub_file_contents] returns, the destination array has
    the size it had, and its elements from index [blocks_length] on are
    the ones it had: the call writes inside the capacity it was given. *)
Theorem cub_file_contents_writes_inside_capacity
    host dest blocks_length w r dest' w' :
  cub_file_contents host dest blocks_length w = Done (r, dest') w' ->
  length dest' = length dest /\
  forall j, blocks_length <= Z.of_nat j -> dest' !! j = dest !! j.
Proof.
  intros H. unfold cub_file_contents in H.
  apply bind_inv in H as ([result outs] & w1 & _ & H).
  destruct (negb (result =? 0)); [by injection H as <- <- <-|].
  destruct outs as [[[swap count] offset]|]; [|done].
  rewrite load_bind in H. cbv beta iota in H.
  destruct (Z.ltb_spec blocks_length count); [by injection H as <- <- <-|].
  apply bind_inv in H as (rc & w2 & _ & H).
  destruct (negb (rc =? 0)).
  { apply bind_inv in H as (e & w3 & _ & H). by injection H as <- <- <-. }
  split.
  - by apply contents_loop_inv in H as [Hlen _].
  - intros j Hj.
    eapply contents_loop_writes_between; [| exact H |]; lia.
Qed.

Lemma cub_file_contents_writes_inside_capacity_witness :
  let dest := [None; None; Some (mkBlock 7 8 9)] in
  let dest' := [Some (mkBlock 2 76 10); Some (mkBlock 0 86 0);
                Some (mkBlock 7 8 9)] in
  length dest' = length dest /\
  forall j, 2 <= Z.of_nat j -> dest' !! j = dest !! j.
Proof.
  exact (cub_file_contents_writes_inside_capacity LittleEndian
           [None; None; Some (mkBlock 7 8 9)] 2 sample_world 0
           [Some (mkBlock 2 76 10); Some (mkBlock 0 86 0); Some (mkBlock 7 8 9)]
           (at_pos sample_world 76) eq_refl).
Defined.

(** ** A table of contents that ends early *)

(** The loop run over the records that are there: [i] records done,
    those of [suf] next, and the loop goes on from there. *)
Lemma contents_loop_records host order rsv count suf :
  forall (i fuel : nat) dest w prefix rest,
  f_bytes (cubfile w) = prefix ++ (suf ≫= encode_record order rsv) ++ rest ->
  f_pos (cubfile w) = Z.of_nat (length prefix) ->
  Forall block_in_range suf ->
  Z.of_nat (i + length suf) <= count ->
  (i + length suf <= length dest)%nat ->
  contents_loop (length suf + fuel) host
                (negb (endian_tag order =? endian_tag host))
                count (Z.of_nat i) dest w
  = contents_loop fuel host (negb (endian_tag order =? endian_tag host))
                  count (Z.of_nat (i + length suf))
                  (take i dest ++ (Some <$> suf) ++ drop (i + length suf) dest)
                  (at_pos w (Z.of_nat (length prefix + 24 * length suf))).
Proof.
  induction suf as [|b suf IH];
    intros i fuel dest w prefix rest Hbytes Hpos Hrange Hcount Hdest.
  - simpl. rewrite !Nat.add_0_r, take_drop, <- Hpos. by rewrite world_eta.
  - inversion Hrange as [|? ? (Ht & Ho & Hl) Hrest]; subst.
    change (length (b :: suf) + fuel)%nat with (S (length suf + fuel)).
    cbn [contents_loop].
    destruct (Z.ltb_spec (Z.of_nat i) count) as [_|Hge];
      [|simpl in Hcount; lia].
    set (record := encode_record order rsv b).
    assert (Hrec : length record = 24%nat)
      by (subst record; unfold encode_record; by rewrite encode_words_length).
    assert (Hread : fread_bytes 4 6 w = record).
    { unfold fread_bytes. rewrite Hbytes, Hpos, Nat2Z.id.
      rewrite drop_app_length. change (Z.to_nat (4 * 6)) with 24%nat.
      change ((b :: suf) ≫= encode_record order rsv)
        with (record ++ (suf ≫= encode_record order rsv)).
      rewrite <- app_assoc. by rewrite take_app_length'. }
    rewrite fread_bind, Hread, Hrec.
    change (negb (Z.of_nat 24 `div` 4 =? 6)) with false. cbv beta iota.
    rewrite maybe_swap_bind by done.
    rewrite load_bind, word_at_24 by (destruct (negb _);
      rewrite ?swap_words_length; done || lia).
    rewrite load_bind, word_at_24 by (destruct (negb _);
      rewrite ?swap_words_length; done || lia).
    rewrite load_bind, word_at_24 by (destruct (negb _);
      rewrite ?swap_words_length; done || lia).
    subst record. unfold encode_record.
    rewrite (decode_words order host _ 0 (b_type b)) by done.
    rewrite (decode_words order host _ 1 (b_offset b)) by done.
    rewrite (decode_words order host _ 2 (b_length b)) by done.
    replace (mkBlock (b_type b) (b_offset b) (b_length b)) with b by by destruct b.
    unfold store_block.
    destruct (Z.leb_spec 0 (Z.of_nat i)); [|lia].
    destruct (Z.ltb_spec (Z.of_nat i) (Z.of_nat (length dest)));
      [|simpl in Hdest; lia].
    cbn [andb]. rewrite ret_bind. rewrite Nat2Z.id.
    replace (Z.of_nat i + 1) with (Z.of_nat (S i)) by lia.
    rewrite (IH (S i) fuel (<[i := Some b]> dest)
               (at_pos w (f_pos (cubfile w) + Z.of_nat 24))
               (prefix ++ encode_record order rsv b) rest).
    + autorewrite with world.
      replace (S i + length suf)%nat with (i + length (b :: suf))%nat
        by (simpl; lia).
      rewrite (take_S_r _ _ (Some b))
        by (apply list_lookup_insert_eq; simpl in Hdest; lia).
      rewrite take_insert_ge by lia.
      rewrite drop_insert_lt by (simpl; lia).
      rewrite <- app_assoc. do 2 f_equal.
      rewrite length_app. unfold encode_record at 1.
      rewrite encode_words_length. simpl. f_equal. lia.
    + autorewrite with world. rewrite Hbytes.
      change ((b :: suf) ≫= encode_record order rsv)
        with (encode_record order rsv b ++ (suf ≫= encode_record order rsv)).
      by rewrite <- !app_assoc.
    + autorewrite with world. rewrite Hpos, length_app.
      unfold encode_record at 1. rewrite encode_words_length. simpl. lia.
    + done.
    + simpl in Hcount. lia.
    + rewrite length_insert. simpl in Hdest. lia.
Qed.

(** ** Reading back a header *)

Lemma check_file_internal_header host order rsv count toc_offset tail w :
  f_bytes (cubfile w) = encode_header order rsv count toc_offset ++ tail ->
  0 <= count < 4294967296 -> 0 <= toc_offset < 4294967296 ->
  check_file_internal host w
  = Done (0, Some (negb (endian_tag order =? endian_tag host),
                   to_int count, toc_offset))
         (at_pos w 28).
Proof.
  intros Hbytes Hcount Hoff.
  rewrite check_file_internal_eq. unfold header_outcome. rewrite Hbytes.
  unfold encode_header.
  set (ws := [endian_tag order; rsv; count; toc_offset; rsv; rsv]).
  rewrite <- (app_assoc magic).
  assert (Hws : length (encode_words order ws) = 24%nat)
    by by rewrite encode_words_length.
  rewrite decide_False by (rewrite length_app; simpl; lia).
  rewrite decide_True by by rewrite take_app_length'.
  rewrite (drop_app_length' magic) by done.
  rewrite take_app_length' by done.
  rewrite decide_True by done.
  assert (Hd0 : word_value host (take 4 (encode_words order ws)) = endian_tag order)
    by (destruct order, host; reflexivity).
  rewrite Hd0.
  rewrite decide_True by (destruct order; [left | right]; reflexivity).
  pose proof (decode_words order host ws 2 _ eq_refl) as H2.
  pose proof (decode_words order host ws 3 _ eq_refl) as H3.
  cbv zeta in H2, H3.
  change (4 * 2)%nat with 8%nat in H2. change (4 * 3)%nat with 12%nat in H3.
  by rewrite H2, H3 by lia.
Qed.

Lemma swap_flag order host :
  negb (endian_tag order =? endian_tag host) = true <-> order ≠ host.
Proof. destruct order, host; simpl; split; done. Qed.

(** X8.  A header written in either byte order, with a block count below
    2^31, is read back by [cub_file_check] on either host: the count that
    was written, and [swap] set exactly when the byte order of the file
    is not the host's. *)
Theorem cub_file_check_reads_back_header
    host order rsv count toc_offset tail w :
  f_bytes (cubfile w) = encode_header order rsv count toc_offset ++ tail ->
  0 <= count < 2147483648 -> 0 <= toc_offset < 4294967296 ->
  exists swap,
    cub_file_check host w = Done (0, Some (swap, count)) (at_pos w 28) /\
    (swap = true <-> order ≠ host).
Proof.
  intros Hbytes Hcount Hoff.
  exists (negb (endian_tag order =? endian_tag host)).
  split; [|apply swap_flag].
  unfold cub_file_check.
  erewrite bind_Done by (eapply check_file_internal_header; [done | lia | done]).
  call_returned_0. unfold to_int. rewrite Z.mod_small by lia.
  by rewrite Z.add_simpl_r.
Qed.

Lemma cub_file_check_reads_back_header_witness :
  exists swap,
    cub_file_check LittleEndian
      (world_of (encode_header BigEndian 9 1000 4000 ++ [x01]))
    = Done (0, Some (swap, 1000))
           (at_pos (world_of (encode_header BigEndian 9 1000 4000 ++ [x01])) 28) /\
    (swap = true <-> BigEndian ≠ LittleEndian).
Proof.
  apply (cub_file_check_reads_back_header LittleEndian BigEndian 9 1000 4000 [x01]).
  - reflexivity.
  - lia.
  - lia.
Defined.

(** ** A block count of 2^31 or more *)

(** X9.  A header whose block-count word is 2^31 or more is accepted
    with a negative count [n].  The TOC read returns 0 without touching
    the destination.  In the lookups and the listing [malloc] fails for
    that count and sets errno: [cub_file_block] returns
    CUB_FILE_NOT_FOUND for every index that is not below [n] and reads
    outside the array for the others, [cub_file_type] reads [data[0]] of
    an array that has no elements, and the listing is the heading
    alone. *)
Theorem negative_block_count host order rsv count toc_offset tail w :
  f_bytes (cubfile w) = encode_header order rsv count toc_offset ++ tail ->
  2147483648 <= count < 4294967296 -> 0 <= toc_offset < 4294967296 ->
  let n := count - 4294967296 in
  returned (cub_file_check host w)
  = Some (0, Some (negb (endian_tag order =? endian_tag host), n)) /\
  (forall dest blocks_length, 0 <= blocks_length ->
     cub_file_contents host dest blocks_length w
     = Done (0, dest) (at_pos w toc_offset)) /\
  (forall block, n <= block ->
     cub_file_block host block w
     = Done CUB_FILE_NOT_FOUND
            (mkWorld (mkFILE (f_bytes (cubfile w)) toc_offset) (outfile w)
                     ENOMEM)) /\
  (forall block, block < n -> cub_file_block host block w = Undefined) /\
  (forall type, cub_file_type host type w = Undefined) /\
  returned (cub_file_list host w) = Some table_heading.
Proof.
  intros Hbytes Hcount Hoff n.
  pose proof (check_file_internal_header host order rsv count toc_offset tail w
                Hbytes ltac:(lia) Hoff) as Hint.
  assert (Hn : to_int count = n).
  { unfold to_int, n.
    replace (count + 2147483648) with (count - 2147483648 + 1 * 4294967296) by lia.
    rewrite Z.mod_add by lia. rewrite Z.mod_small by lia. lia. }
  rewrite Hn in Hint.
  assert (Hcheck : cub_file_check host w
            = Done (0, Some (negb (endian_tag order =? endian_tag host), n))
                   (at_pos w 28)).
  { unfold cub_file_check. by erewrite bind_Done by exact Hint. }
  destruct (calls_with_negative_count _ _ _ _ _ Hcheck ltac:(lia))
    as (offset & Hint' & Hblock & Htype & Hlist).
  assert (offset = toc_offset) as -> by congruence.
  split; [by rewrite Hcheck|].
  split; [|split; [|split; [|split]]].
  - intros dest blocks_length Hcap.
    by rewrite (cub_file_contents_negative host w _ n toc_offset (at_pos w 28)
                  dest blocks_length w Hint ltac:(lia) ltac:(lia) eq_refl).
  - intros block Hge. rewrite Hblock.
    by destruct (Z.geb_spec block n); [|lia].
  - intros block Hlt. rewrite Hblock.
    by destruct (Z.geb_spec block n); [lia|].
  - exact Htype.
  - by rewrite Hlist.
Qed.

Lemma negative_block_count_witness :
  let w := world_of (encode_header LittleEndian 0 4294967295 28 ++ [x00]) in
  returned (cub_file_check BigEndian w) = Some (0, Some (true, -1)) /\
  (forall dest blocks_length, 0 <= blocks_length ->
     cub_file_contents BigEndian dest blocks_length w
     = Done (0, dest) (at_pos w 28)) /\
  (forall block, -1 <= block ->
     cub_file_block BigEndian block w
     = Done CUB_FILE_NOT_FOUND
            (mkWorld (mkFILE (f_bytes (cubfile w)) 28) (outfile w) ENOMEM)) /\
  (forall block, block < -1 -> cub_file_block BigEndian block w = Undefined) /\
  (forall type, cub_file_type BigEndian type w = Undefined) /\
  returned (cub_file_list BigEndian w) = Some table_heading.
Proof.
  apply (negative_block_count BigEndian LittleEndian 0 4294967295 28 [x00]).
  - reflexivity.
  - lia.
  - lia.
Defined.

Lemma encode_records_length order rsv (bs : list CubFileBlock) :
  length (bs ≫= encode_record order rsv) = (24 * length bs)%nat.
Proof.
  induction bs as [|b l IH]; [done|].
  change ((b :: l) ≫= encode_record order rsv)
    with (encode_record order rsv b ++ (l ≫= encode_record order rsv)).
  rewrite length_app, IH. unfold encode_record.
  rewrite encode_words_length. simpl. lia.
Qed.

(** X10.  When the file ends inside the TOC - after the records of
    [done] and fewer than 24 further bytes, while the header announces
    more blocks - [cub_file_contents] returns errno as it was on entry,
    and the destination holds the descriptors read so far in front of its
    old elements. *)
Theorem cub_file_contents_truncated_toc
    host order rsv gap count done partial dest blocks_length w :
  f_bytes (cubfile w)
  = encode_header order rsv count (28 + Z.of_nat (length gap))
    ++ gap ++ (done ≫= encode_record order rsv) ++ partial ->
  Forall block_in_range done ->
  (length partial < 24)%nat ->
  Z.of_nat (length done) < count < 2147483648 ->
  28 + Z.of_nat (length gap) < 4294967296 ->
  count <= blocks_length ->
  (length done <= length dest)%nat ->
  returned (cub_file_contents host dest blocks_length w)
  = Some (errno w, (Some <$> done) ++ drop (length done) dest).
Proof.
  intros Hbytes Hrange Hpartial Hcount Hoff Hcap Hdest.
  unfold cub_file_contents.
  erewrite bind_Done
    by (eapply check_file_internal_header; [by rewrite Hbytes | lia | lia]).
  call_returned_0. rewrite load_bind. cbv beta iota.
  assert (Hint : to_int count = count).
  { unfold to_int. rewrite Z.mod_small by lia. lia. }
  rewrite Hint.
  destruct (Z.ltb_spec blocks_length count); [lia|].
  rewrite fseek_bind by lia. call_returned_0.
  replace (S (Z.to_nat count))
    with (length done + S (Z.to_nat count - length done))%nat by lia.
  change 0 with (Z.of_nat 0).
  rewrite (contents_loop_records host order rsv count done 0 _ dest _
             (encode_header order rsv count (28 + Z.of_nat (length gap)) ++ gap)
             partial).
  - cbn [contents_loop Nat.add]. rewrite take_0. cbn [app].
    destruct (Z.ltb_spec (Z.of_nat (length done)) count); [|lia].
    rewrite fread_bind.
    assert (Hread : fread_bytes 4 6
                      (at_pos (at_pos (at_pos w 28) (28 + Z.of_nat (length gap)))
                         (Z.of_nat
                            (length (encode_header order rsv count
                                       (28 + Z.of_nat (length gap)) ++ gap)
                             + 24 * length done)))
                    = partial).
    { unfold fread_bytes. autorewrite with world. rewrite Hbytes, Nat2Z.id.
      rewrite !app_assoc, drop_app_length'.
      - apply take_ge. change (Z.to_nat (4 * 6)) with 24%nat. lia.
      - rewrite !length_app, encode_records_length. lia. }
    rewrite Hread.
    assert (Hn : negb (Z.of_nat (length partial) `div` 4 =? 6) = true).
    { apply negb_true_iff, Z.eqb_neq. intros Hq.
      pose proof (Z.div_lt_upper_bound (Z.of_nat (length partial)) 4 6). lia. }
    cbv beta iota. rewrite Hn. reflexivity.
  - autorewrite with world. rewrite Hbytes. by rewrite <- !app_assoc.
  - autorewrite with world. rewrite length_app. unfold encode_header.
    rewrite length_app, encode_words_length. simpl. lia.
  - done.
  - simpl. lia.
  - simpl. lia.
Qed.

Lemma cub_file_contents_truncated_toc_witness :
  returned (cub_file_contents BigEndian (malloc_blocks 2) 2
              (world_of (take 60 sample_bytes)))
  = Some (0, [Some (mkBlock 2 76 10); None]).
Proof.
  apply (cub_file_contents_truncated_toc BigEndian LittleEndian 0 [] 2
           [mkBlock 2 76 10] (take 8 (encode_record LittleEndian 0 (mkBlock 0 86 0)))
           (malloc_blocks 2) 2 (world_of (take 60 sample_bytes))).
  - reflexivity.
  - repeat constructor; simpl; lia.
  - simpl. lia.
  - simpl. lia.
  - simpl. lia.
  - lia.
  - simpl. lia.
Defined.

(** ** What the listing prints for a file it cannot read *)

(** X11.  For an input of at least four bytes that does not start with
    "CUBE", the listing is the line INVALID FILE. *)
Theorem cub_file_list_invalid_file host w :
  (4 <= length (f_bytes (cubfile w)))%nat ->
  take 4 (f_bytes (cubfile w)) ≠ magic ->
  cub_file_list host w = Done ("INVALID FILE" ++ newline)%string (at_pos w 4).
Proof.
  intros Hlen Hmagic. unfold cub_file_list.
  erewrite bind_Done.
  2:{ rewrite cub_file_check_eq. unfold header_outcome.
      rewrite decide_False by lia. rewrite decide_False by done. reflexivity. }
  reflexivity.
Qed.

Lemma cub_file_list_invalid_file_witness :
  cub_file_list LittleEndian not_cube_world
  = Done ("INVALID FILE" ++ newline)%string (at_pos not_cube_world 4).
Proof.
  apply cub_file_list_invalid_file.
  - vm_compute. lia.
  - vm_compute. discriminate.
Defined.

(** X12.  For an input that starts with "CUBE" and holds the six header
    words, the first of them being neither endian tag, the listing is the
    line CORRUPT FILE. *)
Theorem cub_file_list_corrupt_file host w d0 :
  take 4 (f_bytes (cubfile w)) = magic ->
  (28 <= length (f_bytes (cubfile w)))%nat ->
  word_at host (drop 4 (f_bytes (cubfile w))) 0 = Some d0 ->
  d0 ≠ BIGENDIAN -> d0 ≠ LITENDIAN ->
  cub_file_list host w = Done ("CORRUPT FILE" ++ newline)%string (at_pos w 28).
Proof.
  intros Hmagic Hlen Hd0 Hbig Hlit. unfold cub_file_list.
  erewrite bind_Done.
  2:{ rewrite cub_file_check_eq. unfold header_outcome.
      rewrite decide_False by lia. rewrite decide_True by done.
      rewrite decide_True by (rewrite length_take, length_drop; lia).
      rewrite take_take. change (4 `min` 24)%nat with 4%nat.
      unfold word_at in Hd0. change (4 * 0)%nat with 0%nat in Hd0.
      rewrite drop_0 in Hd0.
      destruct (decide (length (take 4 (drop 4 (f_bytes (cubfile w)))) = 4%nat));
        [|done].
      injection Hd0 as ->. rewrite decide_False by tauto. reflexivity. }
  reflexivity.
Qed.

Lemma cub_file_list_corrupt_file_witness :
  cub_file_list BigEndian bad_tag_world
  = Done ("CORRUPT FILE" ++ newline)%string (at_pos bad_tag_world 28).
Proof.
  apply (cub_file_list_corrupt_file BigEndian bad_tag_world 16909060).
  - reflexivity.
  - vm_compute. lia.
  - reflexivity.
  - discriminate.
  - discriminate.
Defined.

(** ** Lookups in a file that parses *)

(** X13.  In a file that parses, [cub_file_block] at an index at or
    above the block count, or at the index of a descriptor of length 0,
    returns CUB_FILE_NOT_FOUND and leaves the output stream as it was. *)
Theorem cub_file_block_absent_block host w swap count w1 blocks w2 block :
  cub_file_check host w = Done (0, Some (swap, count)) w1 ->
  count ≠ 0 ->
  cub_file_contents host (malloc_blocks count) count w1
  = Done (0, Some <$> blocks) w2 ->
  count <= block \/
  (0 <= block /\ exists b, blocks !! Z.to_nat block = Some b /\ b_length b = 0) ->
  observe (cub_file_block host block w)
  = Some (CUB_FILE_NOT_FOUND, o_bytes (outfile w)).
Proof.
  intros Hcheck Hcount Hcontents Hcase.
  destruct (parsed_blocks _ _ _ _ _ Hcontents) as [Hlen _].
  destruct (Z.lt_ge_cases count 0) as [Hneg|Hpos].
  - destruct (calls_with_negative_count _ _ _ _ _ Hcheck Hneg)
      as (offset & _ & Hblock & _).
    rewrite Hblock.
    destruct Hcase as [Hge|(_ & b & Hb & _)].
    + by destruct (Z.geb_spec block count); [|lia].
    + apply lookup_lt_Some in Hb. lia.
  - destruct (parsed_world _ _ _ _ _ _ _ _ _ _ Hcheck Hcontents) as [p ->].
    erewrite cub_file_block_parsed by (done || lia).
    destruct (Z.geb_spec block count) as [|Hlt]; [done|].
    destruct Hcase as [|(Hblock & b & Hb & Hzero)]; [lia|].
    erewrite bind_Done by (by apply block_at_fmap).
    by rewrite Hzero.
Qed.

Lemma cub_file_block_absent_block_witness :
  observe (cub_file_block LittleEndian 1 odd_kinds_world) = Some (CUB_FILE_NOT_FOUND, []) /\
  observe (cub_file_block LittleEndian 7 odd_kinds_world) = Some (CUB_FILE_NOT_FOUND, []).
Proof.
  split.
  - apply (cub_file_block_absent_block LittleEndian odd_kinds_world true 2
             (at_pos odd_kinds_world 28)
             [mkBlock 99 78 10; mkBlock 4294967295 88 0]
             (at_pos odd_kinds_world 78));
      [reflexivity | discriminate | reflexivity |].
    right. split; [lia|]. by exists (mkBlock 4294967295 88 0).
  - apply (cub_file_block_absent_block LittleEndian odd_kinds_world true 2
             (at_pos odd_kinds_world 28)
             [mkBlock 99 78 10; mkBlock 4294967295 88 0]
             (at_pos odd_kinds_world 78));
      [reflexivity | discriminate | reflexivity |].
    left. lia.
Defined.

(** X14.  In a file that parses, the lookup by type is the lookup by
    index at the first descriptor of that kind: both calls return the
    same value and leave the same state. *)
Theorem cub_file_type_is_block_at_first_of_type
    host w swap count w1 blocks w2 type i b :
  cub_file_check host w = Done (0, Some (swap, count)) w1 ->
  cub_file_contents host (malloc_blocks count) count w1
  = Done (0, Some <$> blocks) w2 ->
  first_of_type type blocks = Some (i, b) ->
  cub_file_type host type w = cub_file_block host (Z.of_nat i) w.
Proof.
  intros Hcheck Hcontents Hfind.
  destruct (parsed_blocks _ _ _ _ _ Hcontents) as [Hlen _].
  pose proof Hfind as Hfind'.
  apply list_find_Some in Hfind' as (Hb & _ & _).
  pose proof (lookup_lt_Some _ _ _ Hb) as Hlt.
  assert (Hcount : 0 < count) by lia.
  rewrite (cub_file_type_parsed _ _ _ _ _ _ _ _ Hcheck Hcount Hcontents).
  rewrite (cub_file_block_parsed _ _ _ _ _ _ _ _ Hcheck Hcount Hcontents).
  erewrite bind_Done
    by (apply (type_loop_spec blocks count type blocks []); [done | lia | lia]).
  cbn [length Nat.add]. rewrite Hfind.
  destruct (Z.eqb_spec (Z.of_nat i) count); [lia|].
  by destruct (Z.geb_spec (Z.of_nat i) count); [lia|].
Qed.

Lemma cub_file_type_is_block_at_first_of_type_witness :
  cub_file_type BigEndian 4294967295 odd_kinds_world
  = cub_file_block BigEndian 1 odd_kinds_world.
Proof.
  exact (cub_file_type_is_block_at_first_of_type BigEndian odd_kinds_world
           false 2 (at_pos odd_kinds_world 28)
           [mkBlock 99 78 10; mkBlock 4294967295 88 0]
           (at_pos odd_kinds_world 78) 4294967295 1%nat
           (mkBlock 4294967295 88 0) eq_refl eq_refl eq_refl).
Defined.

(** ** The copy, whatever the streams do *)

(** X15.  For an offset that a [long] holds and an output stream on
    which every write takes at least one byte, [internal_copy_data]
    appends the bytes of the file from [offset] on, up to [length] of
    them or to the end of the file; it returns 0 when [length] bytes
    were there and errno as it was on entry when the file ended first. *)
Theorem internal_copy_data_copies_what_is_there offset length_ w :
  0 <= offset < 9223372036854775808 -> 0 <= length_ ->
  writes_progress (outfile w) ->
  let there := drop (Z.to_nat offset) (f_bytes (cubfile w)) in
  observe (internal_copy_data offset length_ w)
  = Some (if decide (length_ <= Z.of_nat (length there)) then 0 else errno w,
          o_bytes (outfile w) ++ take (Z.to_nat length_) there).
Proof.
  intros Hoff Hlen Hacc there.
  destruct (internal_copy_data_spec offset length_ w Hoff Hlen Hacc)
    as (p & o & Hrun & Ho & _).
  rewrite Hrun. simpl. by rewrite Ho.
Qed.

Lemma internal_copy_data_copies_what_is_there_witness :
  observe (internal_copy_data 78 10 odd_kinds_world)
  = Some (0, sample_payload).
Proof.
  apply (internal_copy_data_copies_what_is_there 78 10 odd_kinds_world).
  - lia.
  - lia.
  - repeat constructor; discriminate.
Defined.

Lemma write_loop_any fuel buffer : forall ptr count w r w',
  0 <= ptr -> 0 <= count ->
  write_loop fuel buffer ptr count w = Done r w' ->
  cubfile w' = cubfile w /\
  exists m, 0 <= m <= count /\
    o_bytes (outfile w')
    = o_bytes (outfile w) ++ take (Z.to_nat m) (drop (Z.to_nat ptr) buffer) /\
    ((r = None /\ m = count /\ errno w' = errno w) \/ r = Some (errno w')).
Proof.
  induction fuel as [|fuel IH]; intros ptr count w r w' Hptr Hcount; [done|].
  cbn [write_loop]. destruct (Z.eqb_spec count 0) as [->|Hne]; cbn [negb].
  { intros [= <- <-]. split; [done|]. exists 0.
    rewrite take_0, app_nil_r. auto with lia. }
  assert (Hstep : forall ww o1,
    1 <= ww <= count ->
    o_bytes o1 = o_bytes (outfile w)
                 ++ take (Z.to_nat ww) (drop (Z.to_nat ptr) buffer) ->
    write_loop fuel buffer (ptr + ww) (count - ww)
               (mkWorld (cubfile w) o1 (errno w)) = Done r w' ->
    cubfile w' = cubfile w /\
    exists m, 0 <= m <= count /\
      o_bytes (outfile w')
      = o_bytes (outfile w) ++ take (Z.to_nat m) (drop (Z.to_nat ptr) buffer) /\
      ((r = None /\ m = count /\ errno w' = errno w) \/ r = Some (errno w'))).
  { intros ww o1 Hww Ho1 Hrun.
    apply IH in Hrun as (Hfile & m & Hm & Hbytes & Hres); [|lia|lia].
    split; [done|]. exists (ww + m). split; [lia|]. split.
    - simpl in Hbytes. rewrite Hbytes, Ho1, <- app_assoc. f_equal.
      replace (Z.to_nat (ptr + ww)) with (Z.to_nat ptr + Z.to_nat ww)%nat by lia.
      rewrite <- drop_drop, take_take_drop. f_equal. lia.
    - destruct Hres as [(-> & -> & He) | ->]; [left | by right].
      simpl in He. split; [done|]. split; [lia | done]. }
  unfold mbind, C_bind, fwrite.
  destruct (o_accept (outfile w)) as [|[|a] rest] eqn:Ea.
  - rewrite (proj2 (Z.eqb_neq count 0)) by done.
    apply Hstep; [lia | done].
  - simpl. intros [= <- <-]. split; [done|]. exists 0.
    rewrite take_0, app_nil_r. simpl. split; [lia|]. split; [done | by right].
  - assert (1 <= Z.of_nat (S a) `min` count <= count) by lia.
    rewrite (proj2 (Z.eqb_neq (Z.of_nat (S a) `min` count) 0)) by lia.
    apply Hstep; [lia | done].
Qed.

Lemma copy_loop_any fuel : forall length_ w r w',
  0 <= length_ -> 0 <= f_pos (cubfile w) ->
  copy_loop fuel length_ w = Done r w' ->
  exists m, 0 <= m <= length_ /\
    o_bytes (outfile w')
    = o_bytes (outfile w)
      ++ take (Z.to_nat m) (drop (Z.to_nat (f_pos (cubfile w))) (f_bytes (cubfile w))) /\
    (r = 0 \/ r = errno w').
Proof.
  induction fuel as [|fuel IH]; intros len w r w' Hlen Hpos; [done|].
  cbn [copy_loop]. destruct (Z.eqb_spec len 0) as [->|Hne]; cbn [negb].
  { intros [= <- <-]. exists 0. rewrite take_0, app_nil_r. auto with lia. }
  rewrite fread_bind. cbv beta iota zeta. rewrite Z.div_1_r.
  set (count := if len <? 1024 then len else 1024).
  assert (Hcount : 1 <= count <= len)
    by (subst count; destruct (Z.ltb_spec len 1024); lia).
  set (there := drop (Z.to_nat (f_pos (cubfile w))) (f_bytes (cubfile w))).
  set (buffer := fread_bytes 1 count w).
  assert (Hbuffer : buffer = take (Z.to_nat count) there)
    by (subst buffer there; unfold fread_bytes; by rewrite Z.mul_1_l).
  set (n := Z.of_nat (length buffer)).
  assert (Hn : 0 <= n <= count)
    by (subst n; rewrite Hbuffer, length_take; lia).
  assert (Htake : forall k, k <= n -> take (Z.to_nat k) buffer = take (Z.to_nat k) there).
  { intros k Hk. rewrite Hbuffer, take_take. f_equal. lia. }
  destruct (Z.eqb_spec n 0) as [Hz|Hnz].
  { intros [= <- <-]. exists 0. simpl. rewrite take_0, app_nil_r. auto with lia. }
  intros H. apply bind_inv in H as (r1 & w1 & Hw & H).
  apply write_loop_any in Hw as (Hfile & m1 & Hm1 & Hbytes1 & Hres); [|lia|lia].
  rewrite drop_0, Htake in Hbytes1 by lia. simpl in Hbytes1.
  destruct Hres as [(-> & -> & He) | ->].
  - apply IH in H as (m2 & Hm2 & Hbytes2 & Hr); [|lia|rewrite Hfile; simpl; lia].
    exists (n + m2). split; [lia|]. split.
    + rewrite Hbytes2, Hbytes1, <- app_assoc. f_equal.
      rewrite Hfile. simpl.
      replace (Z.to_nat (f_pos (cubfile w) + n))
        with (Z.to_nat (f_pos (cubfile w)) + Z.to_nat n)%nat by lia.
      rewrite <- drop_drop. fold there.
      rewrite take_take_drop. f_equal. lia.
    + exact Hr.
  - injection H as <- <-. exists m1. split; [lia|]. split; [done | auto].
Qed.

(** X16.  Whatever the offset and the output stream are - an offset
    beyond what a [long] holds, short writes, a write that fails -
    whenever [internal_copy_data] returns it has appended to the output
    a prefix of the requested bytes of the file, in their order and
    nothing else, and the value it returns is 0 or the errno it
    leaves. *)
Theorem internal_copy_data_writes_a_prefix offset length_ w r w' :
  0 <= offset < 18446744073709551616 -> 0 <= length_ ->
  internal_copy_data offset length_ w = Done r w' ->
  exists m, 0 <= m <= length_ /\
    o_bytes (outfile w')
    = o_bytes (outfile w)
      ++ take (Z.to_nat m) (drop (Z.to_nat offset) (f_bytes (cubfile w))) /\
    (r = 0 \/ r = errno w').
Proof.
  intros Hoff Hlen H. unfold internal_copy_data in H.
  destruct (Z.lt_ge_cases offset 9223372036854775808) as [Hlong|Hwrap].
  - rewrite to_long_small in H by lia.
    rewrite fseek_bind in H by lia. call_returned_0_in H.
    apply copy_loop_any in H as (m & Hm & Hbytes & Hr); [|done|simpl; lia].
    exists m. split; [done|]. split; [exact Hbytes | exact Hr].
  - assert (Hneg : to_long offset < 0).
    { unfold to_long.
      replace (offset + 9223372036854775808)
        with (offset - 9223372036854775808 + 1 * 18446744073709551616) by lia.
      rewrite Z.mod_add by lia. rewrite Z.mod_small by lia. lia. }
    unfold mbind, C_bind, fseek in H.
    destruct (Z.ltb_spec (to_long offset) 0); [|lia].
    injection H as <- <-. exists 0. simpl.
    rewrite app_nil_r. auto with lia.
Qed.

Lemma internal_copy_data_writes_a_prefix_witness :
  exists m, 0 <= m <= 10 /\
    [x63; x75; x62]
    = [] ++ take (Z.to_nat m) (drop (Z.to_nat 76) sample_bytes) /\
    (EIO = 0 \/ EIO = EIO).
Proof.
  exact (internal_copy_data_writes_a_prefix 76 10
           (mkWorld (cubfile sample_world) (mkOFILE [] [3; 0; 2]%nat) 0)
           EIO
           (mkWorld (mkFILE sample_bytes 86)
                    (mkOFILE [x63; x75; x62] [2%nat]) EIO)
           ltac:(lia) ltac:(lia) eq_refl).
Defined.

(** ** From the layout of the file to the calls *)

(** X18.  For a file laid out as the format prescribes, in either byte
    order and on either host: [cub_file_block] at the index of a
    descriptor with a non-zero length whose payload lies inside the file
    returns 0 and appends exactly that payload to the output, however the
    output stream splits the writes. *)
Theorem cub_file_block_of_encoded_file
    host order rsv gap blocks rest w (i : nat) b :
  f_bytes (cubfile w) = encode_file order rsv gap blocks rest ->
  Forall block_in_range blocks ->
  Z.of_nat (length blocks) < 2147483648 ->
  28 + Z.of_nat (length gap) < 4294967296 ->
  blocks !! i = Some b -> b_length b ≠ 0 ->
  b_offset b + b_length b <= Z.of_nat (length (f_bytes (cubfile w))) ->
  writes_progress (outfile w) ->
  observe (cub_file_block host (Z.of_nat i) w)
  = Some (0, o_bytes (outfile w)
             ++ take (Z.to_nat (b_length b))
                     (drop (Z.to_nat (b_offset b)) (f_bytes (cubfile w)))).
Proof.
  intros Hbytes Hrange Hcount Hoff Hb Hlen Hfit Hacc.
  destruct (encoded_file_parses host order rsv gap blocks rest w
              Hbytes Hrange Hcount Hoff) as (swap & w1 & w2 & Hcheck & Hcontents).
  pose proof (lookup_lt_Some _ _ _ Hb) as Hlt.
  rewrite Forall_lookup in Hrange.
  destruct (Hrange _ _ Hb) as (_ & Hoffset & Hlength).
  destruct (parsed_world _ _ _ _ _ _ _ _ _ _ Hcheck Hcontents) as [p ->].
  erewrite cub_file_block_parsed by (done || lia).
  destruct (Z.geb_spec (Z.of_nat i) (Z.of_nat (length blocks))); [lia|].
  erewrite bind_Done by (apply block_at_fmap; [lia | by rewrite Nat2Z.id]).
  rewrite (proj2 (Z.eqb_neq (b_length b) 0)) by done.
  destruct (internal_copy_data_spec (b_offset b) (b_length b) (at_pos w p))
    as (q & o & Hrun & Ho & _); [lia | lia | done |].
  rewrite Hrun. simpl. rewrite Ho. simpl.
  rewrite decide_True; [done|]. rewrite length_drop. lia.
Qed.

Lemma cub_file_block_of_encoded_file_witness :
  observe (cub_file_block LittleEndian (Z.of_nat 0) long_world)
  = Some (0, [] ++ take (Z.to_nat 2500)
                        (drop (Z.to_nat 52) (f_bytes (cubfile long_world)))).
Proof.
  apply (cub_file_block_of_encoded_file LittleEndian BigEndian 0 []
           [mkBlock 1 52 2500] long_payload long_world 0 (mkBlock 1 52 2500)).
  - reflexivity.
  - repeat constructor; simpl; lia.
  - simpl. lia.
  - simpl. lia.
  - reflexivity.
  - discriminate.
  - vm_compute. discriminate.
  - repeat constructor; discriminate.
Defined.

(** X19.  For such a file with at least one block, the text the listing
    sends to the stream is the heading followed by one line per
    descriptor, in file order, each with its index, the name of its
    kind, the kind, the offset and the length in their columns. *)
Theorem cub_file_list_of_encoded_file host order rsv gap blocks rest w :
  f_bytes (cubfile w) = encode_file order rsv gap blocks rest ->
  Forall block_in_range blocks ->
  (0 < length blocks)%nat ->
  Z.of_nat (length blocks) < 2147483648 ->
  28 + Z.of_nat (length gap) < 4294967296 ->
  returned (cub_file_list host w)
  = Some (table_heading ++ table_rows 0 blocks)%string.
Proof.
  intros Hbytes Hrange Hne Hcount Hoff.
  destruct (encoded_file_parses host order rsv gap blocks rest w
              Hbytes Hrange Hcount Hoff) as (swap & w1 & w2 & Hcheck & Hcontents).
  by erewrite cub_file_list_table by (done || lia).
Qed.

Lemma cub_file_list_of_encoded_file_witness :
  returned (cub_file_list BigEndian sample_world)
  = Some ("Idx  Type Name  Type      Offset      Length" ++ line_end ++
          "---  ---------  ----  ----------  ----------" ++ line_end ++
          "  0       MESH     2          76          10" ++ line_end ++
          "  1          ?     0          86           0" ++ line_end)%string.
Proof.
  apply (cub_file_list_of_encoded_file BigEndian LittleEndian 0 []
           [mkBlock 2 76 10; mkBlock 0 86 0] sample_payload sample_world).
  - reflexivity.
  - repeat constructor; simpl; lia.
  - simpl. lia.
  - simpl. lia.
  - simpl. lia.
Defined.
